(** * LiveMeetingNote-Web: timestamp anchors of the notes editor

    A shallow embedding of the anchor bookkeeping of
    [src/components/NotesEditor.tsx] (the three revisions of the component
    that the repository carries: the line-indexed textarea editor, the Quill
    editor and the offset-indexed textarea editor) and of
    [WordExporter.removeTimestamps] in [src/services/wordExporter.ts].

    JavaScript strings are sequences of UTF-16 code units, arrays are lists,
    a [Map] is an insertion-ordered association list with unique keys, and
    the integral numbers the component handles (line indexes, offsets,
    milliseconds) are [nat] and [Z]. *)

From Stdlib Require Import String Ascii.
From Stdlib Require Import List Bool Arith ZArith NArith Lia DecimalPos.
Import ListNotations.

(* ================================================================== *)
(** * JavaScript values used by the component *)
(* ================================================================== *)

Module JS.

(** A string is the list of its UTF-16 code units; [.length] is [length]. *)
Definition jsstring : Type := list N.

(** Code units of an ASCII literal, for writing examples. *)
Fixpoint lit (s : string) : jsstring :=
  match s with
  | EmptyString => []
  | String c s' => N_of_ascii c :: lit s'
  end.

Definition NL : N := 10.

(** ECMAScript [WhiteSpace] and [LineTerminator] code points: what
    [String.prototype.trim] strips and what [\s] matches. *)
Definition is_space (c : N) : bool :=
  ((9 <=? c) && (c <=? 13) || (c =? 32) || (c =? 160) || (c =? 5760)
   || (8192 <=? c) && (c <=? 8202) || (c =? 8232) || (c =? 8233)
   || (c =? 8239) || (c =? 8287) || (c =? 12288) || (c =? 65279))%N.

(** [\d] without the unicode flag: the ten ASCII digits. *)
Definition is_digit (c : N) : bool := ((48 <=? c) && (c <=? 57))%N.

Fixpoint drop_spaces (s : jsstring) : jsstring :=
  match s with
  | [] => []
  | c :: s' => if is_space c then drop_spaces s' else s
  end.

(** [s.trim()] *)
Definition trim (s : jsstring) : jsstring :=
  rev (drop_spaces (rev (drop_spaces s))).

(** [s.split('\n')]: never empty; [''.split('\n')] is [['']]. *)
Fixpoint split_nl (s : jsstring) : list jsstring :=
  match s with
  | [] => [[]]
  | c :: s' =>
      if (c =? NL)%N then [] :: split_nl s'
      else match split_nl s' with
           | [] => [[c]]
           | l :: ls => (c :: l) :: ls
           end
  end.

(** [lines.join('\n')] *)
Fixpoint join_nl (ls : list jsstring) : jsstring :=
  match ls with
  | [] => []
  | l :: ls' =>
      match ls' with
      | [] => l
      | _ :: _ => l ++ NL :: join_nl ls'
      end
  end.

(** [s.substring(0, c)] and [s.substring(c)] for a cursor [c >= 0]: both
    clamp the cursor to the length. *)
Definition substring_to (s : jsstring) (c : nat) : jsstring := firstn c s.
Definition substring_from (s : jsstring) (c : nat) : jsstring := skipn c s.

(** [arr.slice(0, n)] *)
Definition slice0 {A} (arr : list A) (n : nat) : list A := firstn n arr.

(** [arr.splice(i, 1)]: removes the element at [i], nothing when [i] is
    past the end. *)
Definition splice_remove {A} (arr : list A) (i : nat) : list A :=
  firstn i arr ++ skipn (S i) arr.

(** [arr.splice(i, 0, x)]: inserts [x] before position [i] (at the end when
    [i] is past the end). *)
Definition splice_insert {A} (arr : list A) (i : nat) (x : A) : list A :=
  firstn i arr ++ x :: skipn i arr.

(** [lines[i] = v] on an array of strings.  In range it replaces the
    element; out of range JavaScript extends the array, leaving holes
    between the old end and [i].  The component only ever reads the array
    back through [slice] and [join], which render a hole as the empty
    string, so holes are stored as empty strings. *)
Fixpoint array_set (arr : list jsstring) (i : nat) (v : jsstring)
  : list jsstring :=
  match arr, i with
  | [], O => [v]
  | [], S i' => [] :: array_set [] i' v
  | _ :: arr', O => v :: arr'
  | x :: arr', S i' => x :: array_set arr' i' v
  end.

(** The string ['undefined'], what [+] makes of a missing operand. *)
Definition undefined_str : jsstring := lit "undefined".

(** [a + b] where [b] may be [undefined]. *)
Definition concat_undef (a : jsstring) (b : option jsstring) : jsstring :=
  match b with
  | Some b' => a ++ b'
  | None => a ++ undefined_str
  end.

(** ** [Map<number, number>]

    Entries in insertion order; the keys are pairwise distinct in every
    map built from [new Map()] by [set] and [delete]. *)
Definition jsmap : Type := list (nat * Z).

Definition keys (m : jsmap) : list nat := map fst m.

Definition wf (m : jsmap) : Prop := NoDup (keys m).

Fixpoint map_get (m : jsmap) (k : nat) : option Z :=
  match m with
  | [] => None
  | (k', v) :: m' => if k' =? k then Some v else map_get m' k
  end.

Definition map_has (m : jsmap) (k : nat) : bool :=
  match map_get m k with Some _ => true | None => false end.

(** [m.set(k, v)]: an existing key keeps its place, a new key goes last. *)
Fixpoint map_set (m : jsmap) (k : nat) (v : Z) : jsmap :=
  match m with
  | [] => [(k, v)]
  | (k', v') :: m' =>
      if k' =? k then (k', v) :: m' else (k', v') :: map_set m' k v
  end.

Fixpoint map_delete (m : jsmap) (k : nat) : jsmap :=
  match m with
  | [] => []
  | (k', v') :: m' =>
      if k' =? k then m' else (k', v') :: map_delete m' k
  end.

(** [m.size] *)
Definition map_size (m : jsmap) : nat := length m.

(** [m.forEach((time, key) => body)] where the body updates an
    accumulator: the entries are visited in insertion order. *)
Definition forEach {S} (m : jsmap) (body : S -> Z -> nat -> S) (init : S) : S :=
  fold_left (fun acc kv => body acc (snd kv) (fst kv)) m init.

(** The outcome of a handler: it returns, or a [TypeError] escapes. *)
Inductive result (A : Type) : Type :=
| Ok (a : A)
| TypeError.
Arguments Ok {A} a.
Arguments TypeError {A}.

Definition is_ok {A} (r : result A) : bool :=
  match r with Ok _ => true | TypeError => false end.

End JS.

(* ================================================================== *)
(** * What the three revisions share *)
(* ================================================================== *)

Module Shared.
Import JS.

(** [const TIME_OFFSET_MS = 2000] *)
Definition TIME_OFFSET_MS : Z := 2000.

(** [Math.max(0, (Date.now() - recordingStartTime.current) - TIME_OFFSET_MS)] *)
Definition adjustedDuration (now recordingStartTime : Z) : Z :=
  let currentDuration := (now - recordingStartTime)%Z in
  Z.max 0 (currentDuration - TIME_OFFSET_MS).

(** [lines.slice(0, index).join('\n').length + (index > 0 ? 1 : 0)] *)
Definition lineStartPos (lines : list jsstring) (index : nat) : nat :=
  length (join_nl (slice0 lines index)) + (if 0 <? index then 1 else 0).

Fixpoint uint_codes (u : Decimal.uint) : jsstring :=
  match u with
  | Decimal.Nil => []
  | Decimal.D0 u' => 48%N :: uint_codes u'
  | Decimal.D1 u' => 49%N :: uint_codes u'
  | Decimal.D2 u' => 50%N :: uint_codes u'
  | Decimal.D3 u' => 51%N :: uint_codes u'
  | Decimal.D4 u' => 52%N :: uint_codes u'
  | Decimal.D5 u' => 53%N :: uint_codes u'
  | Decimal.D6 u' => 54%N :: uint_codes u'
  | Decimal.D7 u' => 55%N :: uint_codes u'
  | Decimal.D8 u' => 56%N :: uint_codes u'
  | Decimal.D9 u' => 57%N :: uint_codes u'
  end.

(** [n.toString()] of an integer. *)
Definition toString (z : Z) : jsstring :=
  match z with
  | Z0 => [48%N]
  | Zpos p => uint_codes (Pos.to_uint p)
  | Zneg p => 45%N :: uint_codes (Pos.to_uint p)
  end.

(** [s.padStart(2, '0')] *)
Definition padStart2 (s : jsstring) : jsstring :=
  repeat 48%N (2 - length s) ++ s.

(** [formatTime]: [Math.floor] of a quotient is [Z.div], the remainder
    operator is [Z.rem]. *)
Definition formatTime (ms : Z) : jsstring :=
  let totalSeconds := (ms / 1000)%Z in
  let hours := (totalSeconds / 3600)%Z in
  let minutes := (Z.rem totalSeconds 3600 / 60)%Z in
  let seconds := Z.rem totalSeconds 60 in
  padStart2 (toString hours) ++ 58%N ::
  padStart2 (toString minutes) ++ 58%N ::
  padStart2 (toString seconds).

(** The keys a handler looks at. *)
Inductive key : Type := Enter | Backspace | OtherKey.

End Shared.

(* ================================================================== *)
(** * The line-indexed textarea editor (first revision in the file) *)
(* ================================================================== *)

Module VariantA.
Import JS Shared.

(** Props ([isRecording], [notes], [timestampMap]), the ref
    [recordingStartTime] and the local state [lineTimestamps].  The parent
    is taken to store what [onNotesChange] and [onTimestampMapChange] hand
    it and to pass it back as the props of the next render. *)
Record state : Type := mkState {
  isRecording : bool;
  notes : jsstring;
  timestampMap : jsmap;
  recordingStartTime : Z;
  lineTimestamps : jsmap
}.

(** The [for] loop of the effect that follows [timestampMap] and [notes]:
    the first line [i] with [currentPos <= position <= lineEnd + 1]. *)
Fixpoint scan_lines (lines : list jsstring) (i currentPos position : nat)
  : option nat :=
  match lines with
  | [] => None
  | l :: rest =>
      let lineEnd := currentPos + length l in
      if (currentPos <=? position) && (position <=? lineEnd + 1) then Some i
      else scan_lines rest (S i) (lineEnd + 1) position
  end.

(** Offset to line, as the effect computes it. *)
Definition offsetToLine (lines : list jsstring) (position : nat) : option nat :=
  scan_lines lines 0 0 position.

(** Line to offset, as [syncToParentTimestampMap] computes it. *)
Definition lineToOffset (lines : list jsstring) (lineIndex : nat) : nat :=
  lineStartPos lines lineIndex.

(** The effect on [timestampMap, notes]: rebuilds [lineTimestamps]. *)
Definition syncEffect (st : state) : state :=
  let lines := split_nl (notes st) in
  let newLineTimestamps :=
    forEach (timestampMap st)
      (fun acc time position =>
         match offsetToLine lines position with
         | Some i => map_set acc i time
         | None => acc
         end) [] in
  mkState (isRecording st) (notes st) (timestampMap st)
          (recordingStartTime st) newLineTimestamps.

(** [syncToParentTimestampMap]: the map handed to [onTimestampMapChange]. *)
Definition syncToParentTimestampMap (lines : list jsstring)
    (lineTimestamps : jsmap) : jsmap :=
  forEach lineTimestamps
    (fun newMap time lineIndex =>
       map_set newMap (lineToOffset lines lineIndex) time) [].

(** "Remove timestamp for deleted line and shift others": the loop of the
    delete-on-empty branch and of the Backspace branch. *)
Definition shiftAfterRemove (lineTimestamps : jsmap) (index : nat) : jsmap :=
  forEach lineTimestamps
    (fun acc time lineIndex =>
       if lineIndex <? index then map_set acc lineIndex time
       else if index <? lineIndex then map_set acc (lineIndex - 1) time
       else acc) [].

(** "Shift timestamps for lines after the split": the loop of the Enter
    branch. *)
Definition shiftAfterSplit (lineTimestamps : jsmap) (index : nat) : jsmap :=
  forEach lineTimestamps
    (fun acc time lineIndex =>
       if lineIndex <? index + 1 then map_set acc lineIndex time
       else map_set acc (lineIndex + 1) time) [].

(** The setters: [setLineTimestamps] and the two callbacks of the parent. *)
Definition setLineTimestamps (st : state) (m : jsmap) : state :=
  mkState (isRecording st) (notes st) (timestampMap st)
          (recordingStartTime st) m.

Definition onNotesChange (st : state) (n : jsstring) : state :=
  mkState (isRecording st) n (timestampMap st)
          (recordingStartTime st) (lineTimestamps st).

Definition onTimestampMapChange (st : state) (m : jsmap) : state :=
  mkState (isRecording st) (notes st) m
          (recordingStartTime st) (lineTimestamps st).

(** [value === ''] *)
Definition is_empty_string (value : jsstring) : bool :=
  match value with [] => true | _ :: _ => false end.

(** [isRecording && oldLine.trim().length === 0 && value.trim().length > 0],
    left to right: [oldLine.trim()] is only reached while recording, and
    throws when [oldLine] is [undefined]. *)
Definition firstCharacterTyped (st : state) (oldLine : option jsstring)
    (value : jsstring) : result bool :=
  if isRecording st then
    match oldLine with
    | None => TypeError
    | Some old => Ok ((length (trim old) =? 0) && (0 <? length (trim value)))
    end
  else Ok false.

(** [handleLineChange(index, value)] at the instant [now]. *)
Definition handleLineChange (st : state) (now : Z) (index : nat)
    (value : jsstring) : result state :=
  let lines := split_nl (notes st) in
  let oldLine := nth_error lines index in
  if is_empty_string value && (1 <? length lines) then
    let lines := splice_remove lines index in
    let newLineTimestamps := shiftAfterRemove (lineTimestamps st) index in
    let st := setLineTimestamps st newLineTimestamps in
    let st := onNotesChange st (join_nl lines) in
    Ok (onTimestampMapChange st
          (syncToParentTimestampMap lines newLineTimestamps))
  else
    let lines := array_set lines index value in
    match firstCharacterTyped st oldLine value with
    | TypeError => TypeError
    | Ok true =>
        if negb (map_has (lineTimestamps st) index) then
          let newLineTimestamps :=
            map_set (lineTimestamps st) index
                    (adjustedDuration now (recordingStartTime st)) in
          let st := setLineTimestamps st newLineTimestamps in
          let st := onTimestampMapChange st
                      (syncToParentTimestampMap lines newLineTimestamps) in
          Ok (onNotesChange st (join_nl lines))
        else Ok (onNotesChange st (join_nl lines))
    | Ok false => Ok (onNotesChange st (join_nl lines))
    end.

(** [handleKeyDown(index, e)] with [e.key] and the cursor
    [e.target.selectionStart]. *)
Definition handleKeyDown (st : state) (index : nat) (k : key)
    (cursorPos : nat) : result state :=
  let lines := split_nl (notes st) in
  let currentLine := nth_error lines index in
  match k with
  | Enter =>
      match currentLine with
      | None => TypeError
      | Some line =>
          let beforeCursor := substring_to line cursorPos in
          let afterCursor := substring_from line cursorPos in
          let lines := array_set lines index beforeCursor in
          let lines := splice_insert lines (index + 1) afterCursor in
          let newLineTimestamps := shiftAfterSplit (lineTimestamps st) index in
          let st := setLineTimestamps st newLineTimestamps in
          let st := onNotesChange st (join_nl lines) in
          Ok (onTimestampMapChange st
                (syncToParentTimestampMap lines newLineTimestamps))
      end
  | Backspace =>
      if (cursorPos =? 0) && (0 <? index) then
        match nth_error lines (index - 1) with
        | None => TypeError
        | Some prevLine =>
            let lines :=
              array_set lines (index - 1) (concat_undef prevLine currentLine) in
            let lines := splice_remove lines index in
            let newLineTimestamps :=
              shiftAfterRemove (lineTimestamps st) index in
            let st := setLineTimestamps st newLineTimestamps in
            let st := onNotesChange st (join_nl lines) in
            Ok (onTimestampMapChange st
                  (syncToParentTimestampMap lines newLineTimestamps))
        end
      else Ok st
  | OtherKey => Ok st
  end.

(** The effect on [isRecording]: a recording that starts stamps the ref. *)
Definition setRecording (st : state) (b : bool) (now : Z) : state :=
  mkState b (notes st) (timestampMap st)
          (if b then now else recordingStartTime st) (lineTimestamps st).

(** One turn of the event loop.  A handler that throws has called no
    setter yet, so the state stays as it was. *)
Inductive event : Type :=
| EvLineChange (now : Z) (index : nat) (value : jsstring)
| EvKeyDown (index : nat) (k : key) (cursorPos : nat)
| EvRecording (b : bool) (now : Z)
| EvParentMap (m : jsmap)
| EvSyncEffect.

Definition keep {A} (st : A) (r : result A) : A :=
  match r with Ok st' => st' | TypeError => st end.

Definition step (st : state) (e : event) : state :=
  match e with
  | EvLineChange now index value => keep st (handleLineChange st now index value)
  | EvKeyDown index k cursorPos => keep st (handleKeyDown st index k cursorPos)
  | EvRecording b now => setRecording st b now
  | EvParentMap m => onTimestampMapChange st m
  | EvSyncEffect => syncEffect st
  end.

Definition run (st : state) (es : list event) : state := fold_left step es st.

(** The component as mounted over an empty document. *)
Definition initial : state := mkState false [] [] 0 [].

(** The number of lines on screen. *)
Definition lineCount (st : state) : nat := length (split_nl (notes st)).

(** One input event as the mounted component lives it.  Every branch of a
    handler that changes something calls [onNotesChange] or hands a new Map
    to [onTimestampMapChange], so the effect on [timestampMap, notes] runs
    before the next event and sets [lineTimestamps] again; where nothing
    changed it does not run, and [lineTimestamps] is still what its last
    run set, which is what it would set again. *)
Definition turn (st : state) (e : event) : state := syncEffect (step st e).

Definition session (st : state) (es : list event) : state :=
  fold_left turn es st.

End VariantA.

(* ================================================================== *)
(** * The Quill editor (second revision in the file) *)
(* ================================================================== *)

Module VariantB.
Import JS Shared.

(** The marker [`[${timeStr}] `] that [insertTimestampAtPosition] hands to
    [quill.insertText]. *)
Definition marker (ms : Z) : jsstring :=
  91%N :: formatTime ms ++ [93%N; 32%N].

(** [minDist] starts at [Infinity]. *)
Inductive distance : Type := Infinity | Finite (d : Z).

(** [dist < minDist] *)
Definition below (dist : Z) (minDist : distance) : bool :=
  match minDist with
  | Infinity => true
  | Finite d => (dist <? d)%Z
  end.

(** [findNearestTimestamp(index)]: the pair is [(nearest, minDist)]. *)
Definition findNearestTimestamp (timestampMap : jsmap) (index : nat)
  : option Z :=
  fst (forEach timestampMap
         (fun acc time pos =>
            let dist := Z.abs (Z.of_nat pos - Z.of_nat index) in
            if below dist (snd acc) && (dist <? 20)%Z
            then (Some time, Finite dist)
            else acc)
         (None, Infinity)).

End VariantB.

(* ================================================================== *)
(** * The offset-indexed textarea editor (third revision in the file) *)
(* ================================================================== *)

Module VariantC.
Import JS Shared.

Record state : Type := mkState {
  isRecording : bool;
  notes : jsstring;
  timestampMap : jsmap;
  recordingStartTime : Z
}.

Definition onNotesChange (st : state) (n : jsstring) : state :=
  mkState (isRecording st) n (timestampMap st) (recordingStartTime st).

Definition onTimestampMapChange (st : state) (m : jsmap) : state :=
  mkState (isRecording st) (notes st) m (recordingStartTime st).

(** [handleLineChange(index, value)] at the instant [now]: no read of the
    old line, so nothing can throw. *)
Definition handleLineChange (st : state) (now : Z) (index : nat)
    (value : jsstring) : state :=
  let lines := array_set (split_nl (notes st)) index value in
  if isRecording st && (0 <? length (trim value)) then
    let pos := lineStartPos lines index in
    if negb (map_has (timestampMap st) pos) then
      let newMap :=
        map_set (timestampMap st) pos
                (adjustedDuration now (recordingStartTime st)) in
      onNotesChange (onTimestampMapChange st newMap) (join_nl lines)
    else onNotesChange st (join_nl lines)
  else onNotesChange st (join_nl lines).

(** [handleKeyDown(index, e)] *)
Definition handleKeyDown (st : state) (index : nat) (k : key)
    (cursorPos : nat) : result state :=
  let lines := split_nl (notes st) in
  let currentLine := nth_error lines index in
  match k with
  | Enter =>
      match currentLine with
      | None => TypeError
      | Some line =>
          let beforeCursor := substring_to line cursorPos in
          let afterCursor := substring_from line cursorPos in
          let lines := array_set lines index beforeCursor in
          let lines := splice_insert lines (index + 1) afterCursor in
          Ok (onNotesChange st (join_nl lines))
      end
  | Backspace =>
      if (cursorPos =? 0) && (0 <? index) then
        match nth_error lines (index - 1) with
        | None => TypeError
        | Some prevLine =>
            let lines :=
              array_set lines (index - 1) (concat_undef prevLine currentLine) in
            let lines := splice_remove lines index in
            let pos := lineStartPos (split_nl (notes st)) index in
            let st :=
              if map_has (timestampMap st) pos
              then onTimestampMapChange st (map_delete (timestampMap st) pos)
              else st in
            Ok (onNotesChange st (join_nl lines))
        end
      else Ok st
  | OtherKey => Ok st
  end.

(** The timestamp column of line [index]:
    [timestampMap.get(lineStartPos)]. *)
Definition anchorOfLine (st : state) (index : nat) : option Z :=
  map_get (timestampMap st) (lineStartPos (split_nl (notes st)) index).

Definition setRecording (st : state) (b : bool) (now : Z) : state :=
  mkState b (notes st) (timestampMap st)
          (if b then now else recordingStartTime st).

Inductive event : Type :=
| EvLineChange (now : Z) (index : nat) (value : jsstring)
| EvKeyDown (index : nat) (k : key) (cursorPos : nat)
| EvRecording (b : bool) (now : Z).

Definition keep {A} (st : A) (r : result A) : A :=
  match r with Ok st' => st' | TypeError => st end.

Definition step (st : state) (e : event) : state :=
  match e with
  | EvLineChange now index value => handleLineChange st now index value
  | EvKeyDown index k cursorPos => keep st (handleKeyDown st index k cursorPos)
  | EvRecording b now => setRecording st b now
  end.

Definition run (st : state) (es : list event) : state := fold_left step es st.

Definition initial : state := mkState false [] [] 0.

Definition lineCount (st : state) : nat := length (split_nl (notes st)).

End VariantC.

(* ================================================================== *)
(** * [WordExporter.removeTimestamps] *)
(* ================================================================== *)

Module WordExporter.
Import JS.

(** The pieces of [/\[?\d{2}:\d{2}:\d{2}\]?\s*/].  Each takes the text at
    the current position and gives what is left after it, or fails.  The
    two optional brackets and the star are greedy; none of them is ever
    backtracked into with success: after a skipped [\[] the next test
    wants a digit, and what follows [\]?] and [\s*] cannot fail. *)
Definition re_opt (c : N) (s : jsstring) : jsstring :=
  match s with
  | x :: s' => if (x =? c)%N then s' else s
  | [] => []
  end.

Definition re_char (c : N) (s : jsstring) : option jsstring :=
  match s with
  | x :: s' => if (x =? c)%N then Some s' else None
  | [] => None
  end.

Definition re_digit (s : jsstring) : option jsstring :=
  match s with
  | x :: s' => if is_digit x then Some s' else None
  | [] => None
  end.

Definition andThen {A B} (o : option A) (f : A -> option B) : option B :=
  match o with Some a => f a | None => None end.

(** [\d{2}] *)
Definition re_digit2 (s : jsstring) : option jsstring :=
  andThen (re_digit s) re_digit.

(** The whole pattern at the start of [s]: the text after the match. *)
Definition match_timestamp (s : jsstring) : option jsstring :=
  andThen (re_digit2 (re_opt 91 s)) (fun s =>
  andThen (re_char 58 s) (fun s =>
  andThen (re_digit2 s) (fun s =>
  andThen (re_char 58 s) (fun s =>
  andThen (re_digit2 s) (fun s =>
  Some (drop_spaces (re_opt 93 s))))))).

(** [s.replace(re, '')] with the [g] flag: the leftmost match is cut out
    and the scan goes on after it.  [skip] counts the code units of the
    current match that are still to be dropped. *)
Fixpoint replace_from (skip : nat) (s : jsstring) : jsstring :=
  match s with
  | [] => []
  | c :: s' =>
      match skip with
      | S k => replace_from k s'
      | O =>
          match match_timestamp s with
          | Some rest => replace_from (length s' - length rest) s'
          | None => c :: replace_from 0 s'
          end
      end
  end.

Definition removeTimestamps (html : jsstring) : jsstring :=
  replace_from 0 html.

(** The plain-text path of [parseHtmlToParagraphs], taken when no
    structured element gave a paragraph: the loop over
    [tempDiv.textContent.split('\n')], which trims each line and pushes a
    paragraph for each one that is not empty.  The text content of the
    parsed HTML is the argument, and a paragraph is given by its [text]. *)
Definition plainTextParagraphs (textContent : jsstring) : list jsstring :=
  fold_left
    (fun paragraphs line =>
       let trimmed := trim line in
       match trimmed with
       | [] => paragraphs
       | _ :: _ => paragraphs ++ [trimmed]
       end)
    (split_nl textContent) [].

End WordExporter.

(* ================================================================== *)
(** * The vocabulary of the properties *)
(* ================================================================== *)

Section Vocabulary.
Import JS Shared WordExporter.

(** A line holds no newline. *)
Definition no_nl (l : jsstring) : Prop := ~ In NL l.

(** Newlines of a text. *)
Definition count_nl (s : jsstring) : nat := count_occ N.eq_dec s NL.

(** Renaming the keys of a map: entries whose key has no new name go. *)
Definition relabel (g : nat -> option nat) (m : jsmap) : jsmap :=
  flat_map (fun kv => match g (fst kv) with
                      | Some k' => [(k', snd kv)]
                      | None => []
                      end) m.

(** No two keys get the same new name. *)
Definition injective_where_defined (g : nat -> option nat) : Prop :=
  forall k1 k2 k', g k1 = Some k' -> g k2 = Some k' -> k1 = k2.

(** Where the Enter branch sends the anchor of line [k]. *)
Definition afterSplit (index k : nat) : option nat :=
  Some (if k <? index + 1 then k else k + 1).

(** Where the two removing branches send the anchor of line [k]. *)
Definition afterRemove (index k : nat) : option nat :=
  if k <? index then Some k
  else if index <? k then Some (k - 1) else None.

(** The anchors [after] are the anchors [before] with line [index] taken
    out: a line with a smaller index keeps its anchor, a line [j] from
    [index] on has the anchor that line [j + 1] had, and only the entry of
    the removed line has gone. *)
Definition renumberedAfterRemove (index : nat) (before after : jsmap) : Prop :=
  (forall j, j < index -> map_get after j = map_get before j) /\
  (forall j, index <= j -> map_get after j = map_get before (j + 1)) /\
  map_size after = map_size before - (if map_has before index then 1 else 0).

(** Three lines [ab], [c], [d] with anchors on the first two. *)
Definition sampleA : VariantA.state :=
  VariantA.mkState false (lit "ab" ++ NL :: lit "c" ++ NL :: lit "d") [] 0
                   [(0, 0%Z); (1, 3000%Z)].

(** The offset at which line [i] starts: each earlier line counts its
    length and its newline. *)
Fixpoint startOffset (lines : list jsstring) (i : nat) : nat :=
  match lines with
  | [] => 0
  | l :: rest =>
      match i with
      | O => 0
      | S i' => length l + 1 + startOffset rest i'
      end
  end.

(** An edit created an anchor: the map has one entry more. *)
Definition anchorCreated (before after : jsmap) : Prop :=
  map_size after = S (map_size before).

(** The entries of a map are distinct and all below [n]. *)
Definition boundedBy (n : nat) (m : jsmap) : Prop :=
  wf m /\ forall k, In k (keys m) -> k < n.

(** Every anchor of the line-indexed editor sits on a line of the text. *)
Definition anchorsOnLines (st : VariantA.state) : Prop :=
  boundedBy (VariantA.lineCount st) (VariantA.lineTimestamps st).

(** The session that leaves the offset-indexed editor with three anchors
    over two lines: type [a], Enter, type [b], lengthen line 0, edit
    line 1 again. *)
Definition driftingSession : list VariantC.event :=
  [ VariantC.EvRecording true 0;
    VariantC.EvLineChange 3000 0 (lit "a");
    VariantC.EvKeyDown 0 Enter 1;
    VariantC.EvLineChange 4000 1 (lit "b");
    VariantC.EvLineChange 5000 0 (lit "aa");
    VariantC.EvLineChange 6000 1 (lit "bc") ].

(** Every stored time is zero or more. *)
Definition timesNonNegative (m : jsmap) : Prop :=
  forall k t, In (k, t) m -> (0 <= t)%Z.

(** The events that the editor itself handles: all but a map that the
    parent puts in from elsewhere. *)
Definition fromTheEditor (e : VariantA.event) : Prop :=
  match e with VariantA.EvParentMap _ => False | _ => True end.

Definition storesNoNegativeTime (st : VariantA.state) : Prop :=
  timesNonNegative (VariantA.lineTimestamps st) /\
  timesNonNegative (VariantA.timestampMap st).

(** [Math.abs(pos - index)] *)
Definition distanceTo (index pos : nat) : Z :=
  Z.abs (Z.of_nat pos - Z.of_nat index).

(** What the loop of [findNearestTimestamp] holds after the entries
    [seen]: nothing while every entry is 20 or more away, and otherwise
    the first of the closest entries, with its distance. *)
Definition nearestSoFar (index : nat) (seen : jsmap)
    (acc : option Z * VariantB.distance) : Prop :=
  match acc with
  | (None, VariantB.Infinity) =>
      forall pos time, In (pos, time) seen -> (20 <= distanceTo index pos)%Z
  | (Some time, VariantB.Finite d) =>
      exists before pos after,
        seen = before ++ (pos, time) :: after /\
        d = distanceTo index pos /\ (d < 20)%Z /\
        (forall p t, In (p, t) before -> (d < distanceTo index p)%Z) /\
        (forall p t, In (p, t) after -> (d <= distanceTo index p)%Z)
  | _ => False
  end.

(** Two decimal digits. *)
Definition two_digits (s : jsstring) : bool :=
  match s with
  | [d1; d2] => is_digit d1 && is_digit d2
  | _ => false
  end.

(** The outcome [o] of a piece of the pattern, with [rest] still to come
    after what the piece left. *)
Definition before (rest : jsstring) (o : option jsstring) : option jsstring :=
  match o with Some x => Some (x ++ rest) | None => None end.

(** The value of a decimal digit. *)
Definition digitValue (c : N) : Z := (Z.of_N c - 48)%Z.

(** Reading [HH:MM:SS] back: the three fields as numbers. *)
Definition readClock (s : jsstring) : option (Z * Z * Z) :=
  match s with
  | [h1; h2; c1; m1; m2; c2; s1; s2] =>
      if forallb is_digit [h1; h2; m1; m2; s1; s2]
         && (c1 =? 58)%N && (c2 =? 58)%N
      then Some ((10 * digitValue h1 + digitValue h2)%Z,
                 (10 * digitValue m1 + digitValue m2)%Z,
                 (10 * digitValue s1 + digitValue s2)%Z)
      else None
  | _ => None
  end.

(** Two digits that spell [z]. *)
Definition spells (z : Z) (s : jsstring) : bool :=
  match s with
  | [d1; d2] =>
      is_digit d1 && is_digit d2
      && (10 * digitValue d1 + digitValue d2 =? z)%Z
  | _ => false
  end.

(** The offset of an existing line, none for an index past the text. *)
Definition offsetOfLine (lines : list jsstring) (k : nat) : option nat :=
  if k <? length lines then Some (VariantA.lineToOffset lines k) else None.

(** A session of the mounted line-indexed editor: the recording starts,
    [a] is typed on line 0 five seconds in, Enter, and [b] is typed on
    line 1 nine seconds in. *)
Definition typedAB : list VariantA.event :=
  [ VariantA.EvRecording true 0;
    VariantA.EvLineChange 5000 0 (lit "a");
    VariantA.EvKeyDown 0 Enter 1;
    VariantA.EvLineChange 9000 1 (lit "b") ].

(** The same with three lines: [a] and [b] five seconds in, [c] eight
    seconds in, each on a line of its own. *)
Definition typedABC : list VariantA.event :=
  [ VariantA.EvRecording true 0;
    VariantA.EvLineChange 5000 0 (lit "a");
    VariantA.EvKeyDown 0 Enter 1;
    VariantA.EvLineChange 5000 1 (lit "b");
    VariantA.EvKeyDown 1 Enter 1;
    VariantA.EvLineChange 8000 2 (lit "c") ].

(** The editor after that session: the lines [a], [b], [c]. *)
Definition abcTyped : VariantA.state :=
  VariantA.session VariantA.initial typedABC.

(** A session of the offset-indexed editor: [a] is typed before the
    recording starts, and a second character five seconds into it. *)
Definition lateRecording : list VariantC.event :=
  [ VariantC.EvLineChange 1000 0 (lit "a");
    VariantC.EvRecording true 2000;
    VariantC.EvLineChange 7000 0 (lit "ab") ].

(** The editor events that the rendering of [st] can deliver: it shows one
    textarea for each line of the text and binds the two handlers to the
    index of that line. *)
Definition offered (st : VariantA.state) (e : VariantA.event) : Prop :=
  match e with
  | VariantA.EvLineChange _ index _ => index < VariantA.lineCount st
  | VariantA.EvKeyDown index _ _ => index < VariantA.lineCount st
  | _ => True
  end.

(** The handler that the event calls returns. *)
Definition returns (st : VariantA.state) (e : VariantA.event) : Prop :=
  match e with
  | VariantA.EvLineChange now index value =>
      is_ok (VariantA.handleLineChange st now index value) = true
  | VariantA.EvKeyDown index k cursorPos =>
      is_ok (VariantA.handleKeyDown st index k cursorPos) = true
  | _ => True
  end.

(** [P] holds of every event of the session, in the state that the
    mounted editor is in when the event arrives. *)
Fixpoint alongSession (P : VariantA.state -> VariantA.event -> Prop)
    (st : VariantA.state) (es : list VariantA.event) : Prop :=
  match es with
  | [] => True
  | e :: es' => P st e /\ alongSession P (VariantA.turn st e) es'
  end.

(** The offset map [tm] holds the anchors [lt] of the lines [lines]: no
    offset twice, as many entries as [lt], and under the start offset of
    each line the time that [lt] has for the line. *)
Definition holdsAnchorsOf (lines : list jsstring) (lt tm : jsmap) : Prop :=
  wf tm /\ map_size tm = map_size lt /\
  forall j, j < length lines ->
    map_get tm (VariantA.lineToOffset lines j) = map_get lt j.

End Vocabulary.

(* ================================================================== *)
(** * Lines and text *)
(* ================================================================== *)

Section SplitJoin.
Import JS.

Lemma split_nl_nonempty (s : jsstring) : split_nl s <> [].
Proof.
  destruct s as [|c s]; simpl; [discriminate|].
  destruct (c =? NL)%N; [discriminate|].
  destruct (split_nl s); discriminate.
Qed.

Lemma split_nl_length_pos (s : jsstring) : 1 <= length (split_nl s).
Proof.
  pose proof (split_nl_nonempty s) as H.
  destruct (split_nl s); [congruence | simpl; lia].
Qed.

Lemma join_nl_cons (l : jsstring) (ls : list jsstring) :
  ls <> [] -> join_nl (l :: ls) = l ++ NL :: join_nl ls.
Proof. destruct ls; [congruence | reflexivity]. Qed.

Lemma join_split (s : jsstring) : join_nl (split_nl s) = s.
Proof.
  induction s as [|c s IH]; [reflexivity|].
  simpl split_nl. destruct (N.eqb_spec c NL) as [->|Hc].
  - rewrite join_nl_cons by apply split_nl_nonempty. simpl. now rewrite IH.
  - pose proof (split_nl_nonempty s) as Hne.
    destruct (split_nl s) as [|l ls]; [congruence|].
    destruct ls as [|l' ls].
    + simpl in *. now rewrite IH.
    + rewrite join_nl_cons by discriminate.
      rewrite join_nl_cons in IH by discriminate.
      rewrite <- app_comm_cons. now rewrite IH.
Qed.

Lemma split_nl_no_nl (s : jsstring) : Forall no_nl (split_nl s).
Proof.
  induction s as [|c s IH]; simpl.
  - constructor; [intros [] | constructor].
  - destruct (N.eqb_spec c NL) as [->|Hc].
    + constructor; [intros [] | exact IH].
    + destruct (split_nl s) as [|l ls].
      * constructor; [|constructor]. intros [H|[]]. congruence.
      * inversion IH as [|? ? Hl Hls]; subst. constructor; [|exact Hls].
        intros [H|H]; [congruence | exact (Hl H)].
Qed.

Lemma split_nl_app_line (l : jsstring) (s : jsstring) :
  no_nl l -> split_nl (l ++ NL :: s) = l :: split_nl s.
Proof.
  induction l as [|c l IH]; intros Hl; simpl.
  - reflexivity.
  - destruct (N.eqb_spec c NL) as [->|Hc].
    + exfalso. apply Hl. now left.
    + rewrite IH; [reflexivity|]. intros H. apply Hl. now right.
Qed.

Lemma split_nl_line (l : jsstring) : no_nl l -> split_nl l = [l].
Proof.
  induction l as [|c l IH]; intros Hl; simpl; [reflexivity|].
  destruct (N.eqb_spec c NL) as [->|Hc].
  - exfalso. apply Hl. now left.
  - rewrite IH; [reflexivity|]. intros H. apply Hl. now right.
Qed.

Lemma split_join (ls : list jsstring) :
  ls <> [] -> Forall no_nl ls -> split_nl (join_nl ls) = ls.
Proof.
  induction ls as [|l ls IH]; intros Hne Hall; [congruence|].
  inversion Hall as [|? ? Hl Hls]; subst.
  destruct ls as [|l' ls].
  - simpl. now apply split_nl_line.
  - rewrite join_nl_cons by discriminate.
    rewrite split_nl_app_line by assumption.
    rewrite IH; [reflexivity | discriminate | assumption].
Qed.

Lemma split_nl_length (s : jsstring) : length (split_nl s) = S (count_nl s).
Proof.
  unfold count_nl. induction s as [|c s IH]; [reflexivity|].
  simpl split_nl. destruct (N.eqb_spec c NL) as [->|Hc].
  - rewrite count_occ_cons_eq by reflexivity. simpl. now rewrite IH.
  - rewrite count_occ_cons_neq by assumption.
    pose proof (split_nl_nonempty s) as Hne.
    destruct (split_nl s) as [|l ls]; [congruence|]. simpl in *. exact IH.
Qed.

Lemma count_nl_join (ls : list jsstring) :
  length ls <= S (count_nl (join_nl ls)).
Proof.
  unfold count_nl. induction ls as [|l ls IH]; [simpl; lia|].
  destruct ls as [|l' ls]; [simpl; lia|].
  rewrite join_nl_cons by discriminate.
  rewrite count_occ_app, count_occ_cons_eq by reflexivity.
  simpl length in *. lia.
Qed.

(** Joining and splitting again never loses a line. *)
Lemma split_join_length (ls : list jsstring) :
  length ls <= length (split_nl (join_nl ls)).
Proof. rewrite split_nl_length. apply count_nl_join. Qed.

End SplitJoin.

(* ================================================================== *)
(** * Maps *)
(* ================================================================== *)

Section MapFacts.
Import JS.

Lemma map_get_none (m : jsmap) (k : nat) :
  map_get m k = None <-> ~ In k (keys m).
Proof.
  induction m as [|[k' v] m IH]; simpl.
  - tauto.
  - destruct (Nat.eqb_spec k' k) as [->|Hk].
    + split; [discriminate | intros H; exfalso; apply H; now left].
    + rewrite IH. tauto.
Qed.

Lemma map_has_true (m : jsmap) (k : nat) :
  map_has m k = true <-> In k (keys m).
Proof.
  unfold map_has. pose proof (map_get_none m k) as H.
  destruct (map_get m k).
  - split; [intros _ | reflexivity].
    destruct (in_dec Nat.eq_dec k (keys m)) as [Hin|Hin]; [exact Hin|].
    apply H in Hin. discriminate.
  - split; [discriminate|]. intros Hin. exfalso. now apply H.
Qed.

Lemma map_has_false (m : jsmap) (k : nat) :
  map_has m k = false <-> ~ In k (keys m).
Proof.
  rewrite <- map_has_true. destruct (map_has m k); split; congruence.
Qed.

Lemma map_set_fresh (m : jsmap) (k : nat) (v : Z) :
  ~ In k (keys m) -> map_set m k v = m ++ [(k, v)].
Proof.
  induction m as [|[k' v'] m IH]; simpl; intros Hk; [reflexivity|].
  destruct (Nat.eqb_spec k' k) as [->|Hne]; [tauto|].
  rewrite IH; tauto.
Qed.

Lemma keys_map_set_present (m : jsmap) (k : nat) (v : Z) :
  In k (keys m) -> keys (map_set m k v) = keys m.
Proof.
  induction m as [|[k' v'] m IH]; simpl; intros Hk; [tauto|].
  destruct (Nat.eqb_spec k' k) as [->|Hne]; [reflexivity|].
  simpl. f_equal. apply IH. destruct Hk; [congruence | assumption].
Qed.

Lemma keys_app (m1 m2 : jsmap) : keys (m1 ++ m2) = keys m1 ++ keys m2.
Proof. apply map_app. Qed.

Lemma keys_map_set_incl (m : jsmap) (k : nat) (v : Z) (x : nat) :
  In x (keys (map_set m k v)) -> x = k \/ In x (keys m).
Proof.
  destruct (in_dec Nat.eq_dec k (keys m)) as [Hin|Hin].
  - rewrite keys_map_set_present by assumption. tauto.
  - rewrite map_set_fresh, keys_app by assumption. rewrite in_app_iff.
    simpl. intuition.
Qed.

Lemma wf_map_set (m : jsmap) (k : nat) (v : Z) : wf m -> wf (map_set m k v).
Proof.
  unfold wf. intros Hwf.
  destruct (in_dec Nat.eq_dec k (keys m)) as [Hin|Hin].
  - now rewrite keys_map_set_present.
  - rewrite map_set_fresh, keys_app by assumption. simpl.
    apply NoDup_app; [exact Hwf | repeat constructor; intros [] |].
    intros x Hx [<-|[]]. tauto.
Qed.

Lemma map_size_set_fresh (m : jsmap) (k : nat) (v : Z) :
  ~ In k (keys m) -> map_size (map_set m k v) = S (map_size m).
Proof.
  intros H. rewrite map_set_fresh by assumption. unfold map_size.
  rewrite length_app. simpl. lia.
Qed.

Lemma map_get_set_same (m : jsmap) (k : nat) (v : Z) :
  map_get (map_set m k v) k = Some v.
Proof.
  induction m as [|[k' v'] m IH]; simpl.
  - now rewrite Nat.eqb_refl.
  - destruct (Nat.eqb_spec k' k) as [->|Hne]; simpl.
    + now rewrite Nat.eqb_refl.
    + destruct (Nat.eqb_spec k' k); [congruence | exact IH].
Qed.

Lemma map_get_set_other (m : jsmap) (k j : nat) (v : Z) :
  j <> k -> map_get (map_set m k v) j = map_get m j.
Proof.
  intros Hjk. induction m as [|[k' v'] m IH]; simpl.
  - destruct (Nat.eqb_spec k j); [congruence | reflexivity].
  - destruct (Nat.eqb_spec k' k) as [->|Hne]; simpl.
    + destruct (Nat.eqb_spec k j); [congruence | reflexivity].
    + now rewrite IH.
Qed.

(** An invariant of the accumulator survives a [forEach] when every visit
    of an entry of the map keeps it. *)
Lemma forEach_invariant {S} (Q : S -> Prop) (m : jsmap)
    (body : S -> Z -> nat -> S) (init : S) :
  (forall acc t k, In k (keys m) -> Q acc -> Q (body acc t k)) ->
  Q init -> Q (forEach m body init).
Proof.
  unfold forEach. revert init.
  induction m as [|[k v] m IH]; intros init Hbody Hinit; simpl; [exact Hinit|].
  apply IH.
  - intros acc t k' Hin. apply Hbody. now right.
  - apply Hbody; [now left | exact Hinit].
Qed.

(** The same, for a body that needs to know the entry it visits. *)
Lemma forEach_invariant_entries {S} (Q : S -> Prop) (m : jsmap)
    (body : S -> Z -> nat -> S) (init : S) :
  (forall acc t k, In (k, t) m -> Q acc -> Q (body acc t k)) ->
  Q init -> Q (forEach m body init).
Proof.
  unfold forEach. revert init.
  induction m as [|[k v] m IH]; intros init Hbody Hinit; simpl; [exact Hinit|].
  apply IH.
  - intros acc t k' Hin. apply Hbody. now right.
  - apply Hbody; [now left | exact Hinit].
Qed.

Lemma keys_relabel (g : nat -> option nat) (m : jsmap) (k' : nat) :
  In k' (keys (relabel g m)) -> exists k, In k (keys m) /\ g k = Some k'.
Proof.
  induction m as [|[k v] m IH]; simpl; [tauto|].
  unfold keys in *. rewrite map_app, in_app_iff. intros [H|H].
  - destruct (g k) as [k1|] eqn:Hg; simpl in H; [|tauto].
    destruct H as [<-|[]]. exists k. auto.
  - destruct (IH H) as (k0 & Hin & Hg). exists k0. auto.
Qed.

Lemma wf_relabel (g : nat -> option nat) (m : jsmap) :
  injective_where_defined g -> wf m -> wf (relabel g m).
Proof.
  intros Hinj. unfold wf. induction m as [|[k v] m IH]; simpl; intros Hwf.
  - constructor.
  - inversion Hwf as [|? ? Hnotin Hrest]; subst.
    destruct (g k) as [k'|] eqn:Hg; simpl; [|now apply IH].
    constructor; [|now apply IH].
    intros Hin. apply keys_relabel in Hin. destruct Hin as (k0 & Hin & Hg0).
    assert (k0 = k) by (eapply Hinj; eauto). subst. contradiction.
Qed.

Lemma map_get_relabel (g : nat -> option nat) (m : jsmap) (k k' : nat) :
  injective_where_defined g -> g k = Some k' ->
  map_get (relabel g m) k' = map_get m k.
Proof.
  intros Hinj Hg. induction m as [|[k0 v0] m IH]; simpl; [reflexivity|].
  destruct (g k0) as [k0'|] eqn:Hg0; simpl.
  - destruct (Nat.eqb_spec k0' k') as [->|Hne].
    + assert (k0 = k) by (eapply Hinj; eauto). subst.
      now rewrite Nat.eqb_refl.
    + destruct (Nat.eqb_spec k0 k) as [->|Hne']; [congruence | exact IH].
  - destruct (Nat.eqb_spec k0 k) as [->|Hne']; [congruence | exact IH].
Qed.

Lemma map_get_relabel_none (g : nat -> option nat) (m : jsmap) (k' : nat) :
  (forall k, g k <> Some k') -> map_get (relabel g m) k' = None.
Proof.
  intros Hg. apply map_get_none. intros Hin.
  apply keys_relabel in Hin. destruct Hin as (k & _ & Hk). now apply (Hg k).
Qed.

(** A [forEach] that copies each entry under a new key into a fresh map
    builds the relabelled map, in the same order. *)
Lemma forEach_relabel (g : nat -> option nat) (m : jsmap)
    (body : jsmap -> Z -> nat -> jsmap) :
  (forall acc t k, body acc t k =
     match g k with Some k' => map_set acc k' t | None => acc end) ->
  injective_where_defined g -> wf m ->
  forEach m body [] = relabel g m.
Proof.
  intros Hbody Hinj Hwf. unfold forEach.
  assert (Hgen : forall acc, wf (acc ++ relabel g m) ->
     fold_left (fun acc kv => body acc (snd kv) (fst kv)) m acc
     = acc ++ relabel g m).
  { clear Hwf. induction m as [|[k v] m IH]; intros acc Hacc; simpl.
    - now rewrite app_nil_r.
    - rewrite Hbody. simpl in Hacc.
      destruct (g k) as [k'|] eqn:Hg; simpl in *.
      + assert (Hfresh : ~ In k' (keys acc)).
        { unfold wf in Hacc. rewrite keys_app in Hacc. simpl in Hacc.
          apply NoDup_remove_2 in Hacc. rewrite in_app_iff in Hacc. tauto. }
        rewrite map_set_fresh by assumption.
        rewrite IH; rewrite <- app_assoc; simpl; [reflexivity | exact Hacc].
      + now apply IH. }
  apply (Hgen []). simpl. now apply wf_relabel.
Qed.

(** A map whose keys are all below [n] has at most [n] entries. *)
Lemma map_size_bound (m : jsmap) (n : nat) :
  wf m -> (forall k, In k (keys m) -> k < n) -> map_size m <= n.
Proof.
  intros Hwf Hlt. unfold map_size.
  replace (length m) with (length (keys m)) by apply length_map.
  rewrite <- (length_seq n 0).
  apply NoDup_incl_length; [exact Hwf|].
  intros k Hk. apply in_seq. specialize (Hlt k Hk). lia.
Qed.

End MapFacts.

(* ================================================================== *)
(** * Arrays of lines *)
(* ================================================================== *)

Section ArrayFacts.
Import JS.

Lemma array_set_at (pre post : list jsstring) (x v : jsstring) :
  array_set (pre ++ x :: post) (length pre) v = pre ++ v :: post.
Proof. induction pre as [|p pre IH]; simpl; [reflexivity | now rewrite IH]. Qed.

Lemma array_set_length (arr : list jsstring) (i : nat) (v : jsstring) :
  length (array_set arr i v) = Nat.max (length arr) (S i).
Proof.
  revert i. induction arr as [|x arr IH]; intros i.
  - induction i as [|i IHi]; simpl in *; [reflexivity | now rewrite IHi].
  - destruct i as [|i]; simpl; [lia | now rewrite IH].
Qed.

Lemma splice_insert_at (pre post : list jsstring) (x y : jsstring) :
  splice_insert (pre ++ x :: post) (length pre + 1) y = pre ++ x :: y :: post.
Proof.
  unfold splice_insert. induction pre as [|p pre IH]; simpl; [reflexivity|].
  now rewrite IH.
Qed.

Lemma splice_remove_at (pre post : list jsstring) (x : jsstring) :
  splice_remove (pre ++ x :: post) (length pre) = pre ++ post.
Proof.
  unfold splice_remove. induction pre as [|p pre IH]; simpl; [reflexivity|].
  simpl in IH. now rewrite IH.
Qed.

Lemma splice_remove_past_end {A} (arr : list A) (i : nat) :
  length arr <= i -> splice_remove arr i = arr.
Proof.
  intros H. unfold splice_remove.
  rewrite firstn_all2 by assumption. rewrite skipn_all2 by lia.
  apply app_nil_r.
Qed.

Lemma nth_error_at (pre post : list jsstring) (x : jsstring) :
  nth_error (pre ++ x :: post) (length pre) = Some x.
Proof. rewrite nth_error_app2, Nat.sub_diag by lia. reflexivity. Qed.

Lemma no_nl_firstn (l : jsstring) (c : nat) : no_nl l -> no_nl (firstn c l).
Proof.
  intros H Hin. apply H. rewrite <- (firstn_skipn c l). apply in_or_app. now left.
Qed.

Lemma no_nl_skipn (l : jsstring) (c : nat) : no_nl l -> no_nl (skipn c l).
Proof.
  intros H Hin. apply H. rewrite <- (firstn_skipn c l). apply in_or_app. now right.
Qed.

Lemma no_nl_app (a b : jsstring) : no_nl a -> no_nl b -> no_nl (a ++ b).
Proof. intros Ha Hb Hin. apply in_app_or in Hin. destruct Hin; auto. Qed.

End ArrayFacts.

(* ================================================================== *)
(** * Renumbering in the line-indexed editor *)
(* ================================================================== *)

Section Renumbering.
Import JS Shared VariantA.

Lemma afterSplit_injective (index : nat) :
  injective_where_defined (afterSplit index).
Proof.
  intros k1 k2 k'. unfold afterSplit.
  destruct (Nat.ltb_spec k1 (index + 1)), (Nat.ltb_spec k2 (index + 1));
    intros E1 E2; injection E1; injection E2; lia.
Qed.

Lemma afterRemove_injective (index : nat) :
  injective_where_defined (afterRemove index).
Proof.
  intros k1 k2 k'. unfold afterRemove.
  destruct (Nat.ltb_spec k1 index), (Nat.ltb_spec k2 index),
           (Nat.ltb_spec index k1), (Nat.ltb_spec index k2);
    intros E1 E2; try discriminate; injection E1; injection E2; lia.
Qed.

Lemma shiftAfterSplit_relabel (m : jsmap) (index : nat) :
  wf m -> shiftAfterSplit m index = relabel (afterSplit index) m.
Proof.
  intros Hwf. apply forEach_relabel;
    [| apply afterSplit_injective | exact Hwf].
  intros acc t k. unfold afterSplit. now destruct (k <? index + 1).
Qed.

Lemma shiftAfterRemove_relabel (m : jsmap) (index : nat) :
  wf m -> shiftAfterRemove m index = relabel (afterRemove index) m.
Proof.
  intros Hwf. apply forEach_relabel;
    [| apply afterRemove_injective | exact Hwf].
  intros acc t k. unfold afterRemove.
  destruct (k <? index); [reflexivity|]. now destruct (index <? k).
Qed.

(** What a lookup sees after the Enter branch has renumbered. *)
Lemma shiftAfterSplit_get (m : jsmap) (index : nat) :
  wf m ->
  (forall j, j < index + 1 ->
     map_get (shiftAfterSplit m index) j = map_get m j) /\
  (forall j, index + 1 <= j ->
     map_get (shiftAfterSplit m index) (j + 1) = map_get m j) /\
  map_get (shiftAfterSplit m index) (index + 1) = None.
Proof.
  intros Hwf. rewrite shiftAfterSplit_relabel by assumption.
  repeat split.
  - intros j Hj. apply map_get_relabel; [apply afterSplit_injective|].
    unfold afterSplit. destruct (Nat.ltb_spec j (index + 1)); [reflexivity | lia].
  - intros j Hj. apply map_get_relabel; [apply afterSplit_injective|].
    unfold afterSplit. destruct (Nat.ltb_spec j (index + 1)); [lia | reflexivity].
  - apply map_get_relabel_none. intros k. unfold afterSplit.
    destruct (Nat.ltb_spec k (index + 1)); intros E; injection E; lia.
Qed.

(** What a lookup sees after a removing branch has renumbered. *)
Lemma shiftAfterRemove_get (m : jsmap) (index : nat) :
  wf m ->
  (forall j, j < index ->
     map_get (shiftAfterRemove m index) j = map_get m j) /\
  (forall j, index <= j ->
     map_get (shiftAfterRemove m index) j = map_get m (j + 1)).
Proof.
  intros Hwf. rewrite shiftAfterRemove_relabel by assumption. split.
  - intros j Hj. apply map_get_relabel; [apply afterRemove_injective|].
    unfold afterRemove. destruct (Nat.ltb_spec j index); [reflexivity | lia].
  - intros j Hj. apply map_get_relabel; [apply afterRemove_injective|].
    unfold afterRemove.
    destruct (Nat.ltb_spec (j + 1) index); [lia|].
    destruct (Nat.ltb_spec index (j + 1)); [f_equal; lia | lia].
Qed.

(** The entry of the removed line is the only one that goes. *)
Lemma shiftAfterRemove_size (m : jsmap) (index : nat) :
  wf m ->
  map_size (shiftAfterRemove m index)
  = map_size m - (if map_has m index then 1 else 0).
Proof.
  intros Hwf. rewrite shiftAfterRemove_relabel by assumption.
  unfold map_size. induction m as [|[k v] m IH]; [reflexivity|].
  inversion Hwf as [|? ? Hnotin Hrest]; subst.
  specialize (IH Hrest). simpl relabel. rewrite length_app, IH.
  unfold map_has at 2. simpl map_get. unfold afterRemove.
  destruct (Nat.eqb_spec k index) as [->|Hne].
  - rewrite Nat.ltb_irrefl. simpl.
    apply map_has_false in Hnotin. rewrite Hnotin. simpl. lia.
  - fold (map_has m index).
    assert (Hlen : length m >= if map_has m index then 1 else 0).
    { destruct (map_has m index) eqn:Hhas; [|lia].
      apply map_has_true in Hhas. destruct m; [destruct Hhas | simpl; lia]. }
    destruct (map_has m index);
      (destruct (Nat.ltb_spec k index); [simpl; lia|]);
      (destruct (Nat.ltb_spec index k); [simpl; lia | lia]).
Qed.

(** Splitting a line and removing the line that the split made brings
    every entry back where it was, in the same order. *)
Lemma shift_split_remove (m : jsmap) (index : nat) :
  wf m -> shiftAfterRemove (shiftAfterSplit m index) (index + 1) = m.
Proof.
  intros Hwf.
  rewrite shiftAfterRemove_relabel;
    rewrite shiftAfterSplit_relabel by assumption;
    [| apply wf_relabel; [apply afterSplit_injective | exact Hwf]].
  clear Hwf. induction m as [|[k v] m IH]; [reflexivity|].
  simpl. rewrite IH. unfold afterRemove.
  destruct (Nat.ltb_spec k (index + 1)) as [Hlt|Hge].
  - destruct (Nat.ltb_spec k (index + 1)); [reflexivity | lia].
  - destruct (Nat.ltb_spec (k + 1) (index + 1)); [lia|].
    destruct (Nat.ltb_spec (index + 1) (k + 1)); [|lia].
    simpl. do 2 f_equal. lia.
Qed.

End Renumbering.

(* ================================================================== *)
(** * The handlers of the line-indexed editor, branch by branch *)
(* ================================================================== *)

Section HandlersA.
Import JS Shared VariantA.

Lemma nth_error_decompose (lines : list jsstring) (index : nat) (line : jsstring) :
  nth_error lines index = Some line ->
  exists pre post,
    lines = pre ++ line :: post /\ length pre = index /\
    firstn index lines = pre /\ skipn (S index) lines = post.
Proof.
  intros H. destruct (nth_error_split _ _ H) as (pre & post & -> & Hlen).
  exists pre, post. repeat split; [exact Hlen | |]; subst index.
  - rewrite firstn_app, firstn_all, Nat.sub_diag. simpl. apply app_nil_r.
  - replace (pre ++ line :: post) with ((pre ++ [line]) ++ post)
      by (rewrite <- app_assoc; reflexivity).
    replace (S (length pre)) with (length (pre ++ [line]))
      by (rewrite length_app; simpl; lia).
    rewrite skipn_app, skipn_all, Nat.sub_diag. reflexivity.
Qed.

Lemma handleKeyDown_Enter_at (st : state) (pre post : list jsstring)
    (line : jsstring) (cursorPos : nat) :
  split_nl (notes st) = pre ++ line :: post ->
  let lines' := pre ++ substring_to line cursorPos
                    :: substring_from line cursorPos :: post in
  let newLineTimestamps := shiftAfterSplit (lineTimestamps st) (length pre) in
  handleKeyDown st (length pre) Enter cursorPos =
  Ok (mkState (isRecording st) (join_nl lines')
        (syncToParentTimestampMap lines' newLineTimestamps)
        (recordingStartTime st) newLineTimestamps).
Proof.
  intros Hsplit. unfold handleKeyDown. cbv zeta. rewrite Hsplit, nth_error_at.
  rewrite array_set_at, splice_insert_at. reflexivity.
Qed.

Lemma splice_remove_next (pre post : list jsstring) (x y : jsstring) :
  splice_remove (pre ++ x :: y :: post) (S (length pre)) = pre ++ x :: post.
Proof.
  unfold splice_remove. induction pre as [|p pre IH]; simpl; [reflexivity|].
  simpl in IH. now rewrite IH.
Qed.

Lemma nth_error_next (pre post : list jsstring) (x y : jsstring) :
  nth_error (pre ++ x :: y :: post) (S (length pre)) = Some y.
Proof. induction pre as [|p pre IH]; simpl; [reflexivity | exact IH]. Qed.

Lemma handleKeyDown_Backspace_at (st : state) (pre post : list jsstring)
    (prevLine currentLine : jsstring) :
  split_nl (notes st) = pre ++ prevLine :: currentLine :: post ->
  let lines' := pre ++ (prevLine ++ currentLine) :: post in
  let newLineTimestamps :=
    shiftAfterRemove (lineTimestamps st) (S (length pre)) in
  handleKeyDown st (S (length pre)) Backspace 0 =
  Ok (mkState (isRecording st) (join_nl lines')
        (syncToParentTimestampMap lines' newLineTimestamps)
        (recordingStartTime st) newLineTimestamps).
Proof.
  intros Hsplit. unfold handleKeyDown. cbv zeta. rewrite Hsplit. simpl Nat.sub.
  rewrite Nat.sub_0_r, nth_error_at, nth_error_next. simpl andb. cbv iota.
  simpl concat_undef. rewrite array_set_at, splice_remove_next. reflexivity.
Qed.

Lemma handleLineChange_delete_at (st : state) (now : Z)
    (pre post : list jsstring) (line : jsstring) :
  split_nl (notes st) = pre ++ line :: post ->
  1 < length (pre ++ line :: post) ->
  let lines' := pre ++ post in
  let newLineTimestamps := shiftAfterRemove (lineTimestamps st) (length pre) in
  handleLineChange st now (length pre) [] =
  Ok (mkState (isRecording st) (join_nl lines')
        (syncToParentTimestampMap lines' newLineTimestamps)
        (recordingStartTime st) newLineTimestamps).
Proof.
  intros Hsplit Hlen. unfold handleLineChange. cbv zeta. rewrite Hsplit.
  apply Nat.ltb_lt in Hlen. rewrite Hlen. simpl andb. cbv iota.
  rewrite splice_remove_at. reflexivity.
Qed.

Lemma no_nl_pieces (lines pre post : list jsstring) (line : jsstring) :
  Forall no_nl lines -> lines = pre ++ line :: post ->
  Forall no_nl pre /\ no_nl line /\ Forall no_nl post.
Proof.
  intros Hall ->. apply Forall_app in Hall. destruct Hall as [Hpre Hrest].
  inversion Hrest; subst. auto.
Qed.

End HandlersA.

(* ================================================================== *)
(** * Structural edits and the anchors *)
(* ================================================================== *)

Section StructuralEdits.
Import JS Shared.

Lemma shiftAfterRemove_renumbered (m : jsmap) (index : nat) :
  wf m -> renumberedAfterRemove index m (VariantA.shiftAfterRemove m index).
Proof.
  intros Hwf. destruct (shiftAfterRemove_get m index Hwf) as [Hlo Hhi].
  repeat split; [exact Hlo | exact Hhi | now apply shiftAfterRemove_size].
Qed.

(** C3 on the offset-indexed editor: Enter leaves [timestampMap] alone, so
    with ["a"; "b"] and an anchor on line 1 (offset 2), Enter at the end
    of line 0 shows that anchor on the new empty line 1 and none on [b]. *)
Lemma enter_does_not_renumber_offsets :
  ~ (forall (st st' : VariantC.state) (index cursorPos : nat),
       VariantC.handleKeyDown st index Enter cursorPos = Ok st' ->
       (forall j, j < index + 1 ->
          VariantC.anchorOfLine st' j = VariantC.anchorOfLine st j) /\
       (forall j, index + 1 <= j ->
          VariantC.anchorOfLine st' (j + 1) = VariantC.anchorOfLine st j) /\
       VariantC.anchorOfLine st' (index + 1) = None).
Proof.
  intros H.
  destruct (H (VariantC.mkState false (lit "a" ++ NL :: lit "b") [(2, 3000%Z)] 0)
              _ 0 1 eq_refl) as (_ & _ & Hnew).
  vm_compute in Hnew. discriminate.
Qed.

End StructuralEdits.

(* ================================================================== *)
(** * Line index to offset and back *)
(* ================================================================== *)

Section PositionTranslator.
Import JS Shared.

Lemma join_prefix_length (lines : list jsstring) (i : nat) :
  1 <= i <= length lines ->
  length (join_nl (firstn i lines)) + 1 = startOffset lines i.
Proof.
  revert i. induction lines as [|l rest IH]; intros i [Hlo Hhi]; simpl in Hhi.
  - lia.
  - destruct i as [|i]; [lia|]. simpl firstn. simpl startOffset.
    destruct i as [|i].
    + simpl. destruct rest; simpl; lia.
    + assert (Hi : 1 <= S i <= length rest) by lia.
      specialize (IH (S i) Hi).
      destruct rest as [|r rest']; [simpl in Hi; lia|].
      rewrite join_nl_cons by (simpl; discriminate).
      rewrite length_app.
      change (length (NL :: join_nl (firstn (S i) (r :: rest'))))
        with (S (length (join_nl (firstn (S i) (r :: rest'))))).
      lia.
Qed.

Lemma lineToOffset_startOffset (lines : list jsstring) (i : nat) :
  i <= length lines -> VariantA.lineToOffset lines i = startOffset lines i.
Proof.
  intros Hi. unfold VariantA.lineToOffset, lineStartPos, slice0.
  destruct i as [|i].
  - simpl. destruct lines; reflexivity.
  - change (0 <? S i) with true. cbv iota. apply join_prefix_length. lia.
Qed.

Lemma startOffset_0 (lines : list jsstring) : startOffset lines 0 = 0.
Proof. destruct lines; reflexivity. Qed.

Lemma scan_lines_at_start (lines : list jsstring) (i0 cur i : nat) :
  i < length lines ->
  VariantA.scan_lines lines i0 cur (cur + startOffset lines i)
  = Some (i0 + Nat.pred i).
Proof.
  revert i0 cur i. induction lines as [|l rest IH]; intros i0 cur i Hi;
    simpl in Hi; [lia|].
  cbn [VariantA.scan_lines]. cbv zeta.
  destruct (Nat.leb_spec cur (cur + startOffset (l :: rest) i)) as [_|Hc];
    [|lia].
  cbn [andb].
  destruct (Nat.leb_spec (cur + startOffset (l :: rest) i) (cur + length l + 1))
    as [Hle|Hgt].
  - f_equal. destruct i as [|[|i]]; [simpl; lia | simpl; lia |].
    assert (Hpos : 1 <= startOffset rest (S i)).
    { destruct rest; [simpl in Hi; lia | simpl; lia]. }
    simpl in Hle. lia.
  - destruct i as [|[|i]].
    + simpl in Hgt. lia.
    + simpl in Hgt. rewrite startOffset_0 in Hgt. lia.
    + replace (cur + startOffset (l :: rest) (S (S i)))
        with ((cur + length l + 1) + startOffset rest (S i)) by (simpl; lia).
      rewrite IH by lia. f_equal. simpl. lia.
Qed.

(** Going from a line to its offset and back lands on the line before,
    for every line but the first: the test [position <= lineEnd + 1] of
    the effect takes the start of the next line into each line. *)
Lemma offsetToLine_lineToOffset (lines : list jsstring) (i : nat) :
  i < length lines ->
  VariantA.offsetToLine lines (VariantA.lineToOffset lines i)
  = Some (Nat.pred i).
Proof.
  intros Hi. rewrite lineToOffset_startOffset by lia.
  unfold VariantA.offsetToLine.
  apply (scan_lines_at_start lines 0 0 i Hi).
Qed.

(** C1, where the code departs from the round-trip law.  Over the document
    ["a"; "b"], line 1 starts at offset 2 and offset 2 is translated back
    to line 0.  The effect therefore folds the two anchors that
    [syncToParentTimestampMap] emitted for lines 0 and 1 into one entry on
    line 0, which carries the time of line 1. *)
Theorem offsetToLine_lineToOffset_line1 :
  VariantA.lineToOffset [lit "a"; lit "b"] 1 = 2 /\
  VariantA.offsetToLine [lit "a"; lit "b"]
    (VariantA.lineToOffset [lit "a"; lit "b"] 1) = Some 0 /\
  VariantA.syncToParentTimestampMap [lit "a"; lit "b"] [(0, 0%Z); (1, 3000%Z)]
    = [(0, 0%Z); (2, 3000%Z)] /\
  VariantA.lineTimestamps
    (VariantA.syncEffect
       (VariantA.mkState true (lit "a" ++ NL :: lit "b")
          [(0, 0%Z); (2, 3000%Z)] 0 [(0, 0%Z); (1, 3000%Z)]))
    = [(0, 3000%Z)].
Proof. repeat split; reflexivity. Qed.

End PositionTranslator.

(* ================================================================== *)
(** * Automatic creation of an anchor *)
(* ================================================================== *)

Section AutoAnchor.
Import JS Shared.

Lemma map_set_size_le (m : jsmap) (k : nat) (v : Z) :
  map_size (map_set m k v) <= S (map_size m).
Proof.
  unfold map_size. induction m as [|[k' v'] m IH]; simpl; [lia|].
  destruct (k' =? k); simpl; lia.
Qed.

Lemma shiftAfterRemove_size_le (m : jsmap) (index : nat) :
  map_size (VariantA.shiftAfterRemove m index) <= map_size m.
Proof.
  unfold VariantA.shiftAfterRemove, forEach.
  assert (Hgen : forall acc,
    map_size (fold_left (fun acc kv =>
       if fst kv <? index then map_set acc (fst kv) (snd kv)
       else if index <? fst kv then map_set acc (fst kv - 1) (snd kv)
       else acc) m acc) <= map_size acc + map_size m).
  { unfold map_size.
    induction m as [|[k v] m IH]; intros acc; simpl; [lia|].
    eapply Nat.le_trans; [apply IH|].
    pose proof (map_set_size_le acc k v) as Hlo.
    pose proof (map_set_size_le acc (k - 1) v) as Hhi.
    unfold map_size in Hlo, Hhi.
    destruct (k <? index); [lia|]. destruct (index <? k); lia. }
  apply (Hgen []).
Qed.

(** In the offset-indexed editor the old content of the line is not
    looked at.  With ["a"] typed before recording and no anchor, typing a
    second character while recording creates an anchor. *)
Lemma offset_editor_anchors_nonempty_line :
  ~ (forall (st : VariantC.state) (now : Z) (index : nat)
            (value old : jsstring),
       nth_error (split_nl (VariantC.notes st)) index = Some old ->
       anchorCreated (VariantC.timestampMap st)
         (VariantC.timestampMap (VariantC.handleLineChange st now index value)) ->
       length (trim old) = 0).
Proof.
  intros H.
  specialize (H (VariantC.mkState true (lit "a") [] 0) 5000%Z 0 (lit "ab")
                (lit "a") eq_refl eq_refl).
  vm_compute in H. discriminate.
Qed.

End AutoAnchor.

(* ================================================================== *)
(** * Anchors and lines along a session *)
(* ================================================================== *)

Section AnchorCount.
Import JS Shared.

Lemma boundedBy_nil (n : nat) : boundedBy n [].
Proof. split; [constructor | intros k []]. Qed.

Lemma boundedBy_set (n : nat) (m : jsmap) (k : nat) (v : Z) :
  boundedBy n m -> k < n -> boundedBy n (map_set m k v).
Proof.
  intros [Hwf Hlt] Hk. split; [now apply wf_map_set|].
  intros x Hx. apply keys_map_set_incl in Hx. destruct Hx as [->|Hx]; auto.
Qed.

Lemma boundedBy_weaken (n n' : nat) (m : jsmap) :
  boundedBy n m -> n <= n' -> boundedBy n' m.
Proof.
  intros [Hwf Hlt] Hle. split; [exact Hwf|].
  intros k Hk. specialize (Hlt k Hk). lia.
Qed.

Lemma boundedBy_size (n : nat) (m : jsmap) : boundedBy n m -> map_size m <= n.
Proof. intros [Hwf Hlt]. now apply map_size_bound. Qed.

Lemma splice_remove_length {A} (arr : list A) (i : nat) :
  length (splice_remove arr i)
  = if i <? length arr then length arr - 1 else length arr.
Proof.
  unfold splice_remove. rewrite length_app, length_firstn, length_skipn.
  destruct (Nat.ltb_spec i (length arr)); lia.
Qed.

Lemma splice_insert_length {A} (arr : list A) (i : nat) (x : A) :
  length (splice_insert arr i x) = S (length arr).
Proof.
  unfold splice_insert. rewrite length_app. simpl.
  rewrite length_firstn, length_skipn. lia.
Qed.

Lemma shiftAfterRemove_bounded (m : jsmap) (index n : nat) :
  boundedBy n m ->
  boundedBy (if index <? n then n - 1 else n) (VariantA.shiftAfterRemove m index).
Proof.
  intros [Hwf Hlt]. unfold VariantA.shiftAfterRemove.
  apply forEach_invariant; [|apply boundedBy_nil].
  intros acc t k Hk Hacc. specialize (Hlt k Hk).
  destruct (Nat.ltb_spec k index).
  - apply boundedBy_set; [exact Hacc|].
    destruct (Nat.ltb_spec index n); lia.
  - destruct (Nat.ltb_spec index k); [|exact Hacc].
    apply boundedBy_set; [exact Hacc|].
    destruct (Nat.ltb_spec index n); lia.
Qed.

Lemma shiftAfterSplit_bounded (m : jsmap) (index n : nat) :
  boundedBy n m -> boundedBy (S n) (VariantA.shiftAfterSplit m index).
Proof.
  intros [Hwf Hlt]. unfold VariantA.shiftAfterSplit.
  apply forEach_invariant; [|apply boundedBy_nil].
  intros acc t k Hk Hacc. specialize (Hlt k Hk).
  destruct (k <? index + 1); apply boundedBy_set; auto; lia.
Qed.

Lemma scan_lines_bound (lines : list jsstring) (i0 cur position i : nat) :
  VariantA.scan_lines lines i0 cur position = Some i -> i < i0 + length lines.
Proof.
  revert i0 cur. induction lines as [|l rest IH]; intros i0 cur; simpl;
    [discriminate|].
  destruct ((cur <=? position) && (position <=? cur + length l + 1)).
  - intros E. injection E as <-. lia.
  - intros E. apply IH in E. lia.
Qed.

Lemma syncEffect_on_lines (st : VariantA.state) :
  anchorsOnLines (VariantA.syncEffect st).
Proof.
  unfold anchorsOnLines, VariantA.lineCount, VariantA.syncEffect. simpl.
  apply forEach_invariant; [|apply boundedBy_nil].
  intros acc t k _ Hacc.
  destruct (VariantA.offsetToLine (split_nl (VariantA.notes st)) k) as [i|] eqn:E;
    [|exact Hacc].
  apply boundedBy_set; [exact Hacc|].
  apply scan_lines_bound in E. exact E.
Qed.

Lemma handleLineChange_on_lines (st st' : VariantA.state) (now : Z)
    (index : nat) (value : jsstring) :
  anchorsOnLines st ->
  VariantA.handleLineChange st now index value = Ok st' ->
  anchorsOnLines st'.
Proof.
  unfold anchorsOnLines, VariantA.lineCount, VariantA.handleLineChange.
  cbv zeta. intros Hinv.
  set (lines := split_nl (VariantA.notes st)) in *.
  destruct (VariantA.is_empty_string value && (1 <? length lines)).
  - intros E. injection E as <-. simpl.
    eapply boundedBy_weaken;
      [apply (shiftAfterRemove_bounded (VariantA.lineTimestamps st) index (length lines) Hinv)|].
    eapply Nat.le_trans; [|apply split_join_length].
    rewrite splice_remove_length. reflexivity.
  - assert (Hgrow : length lines
                    <= length (split_nl (join_nl (array_set lines index value)))).
    { eapply Nat.le_trans; [|apply split_join_length].
      rewrite array_set_length. lia. }
    assert (Hidx : index
                   < length (split_nl (join_nl (array_set lines index value)))).
    { eapply Nat.lt_le_trans; [|apply split_join_length].
      rewrite array_set_length. lia. }
    destruct (VariantA.firstCharacterTyped st (nth_error lines index) value)
      as [[|]|]; [| |discriminate].
    + destruct (negb (map_has (VariantA.lineTimestamps st) index));
        intros E; injection E as <-; simpl.
      * apply boundedBy_set; [|exact Hidx].
        now apply (boundedBy_weaken (length lines)).
      * now apply (boundedBy_weaken (length lines)).
    + intros E; injection E as <-; simpl.
      now apply (boundedBy_weaken (length lines)).
Qed.

Lemma handleKeyDown_on_lines (st st' : VariantA.state) (index : nat)
    (k : key) (cursorPos : nat) :
  anchorsOnLines st ->
  VariantA.handleKeyDown st index k cursorPos = Ok st' ->
  anchorsOnLines st'.
Proof.
  unfold anchorsOnLines, VariantA.lineCount, VariantA.handleKeyDown.
  cbv zeta. intros Hinv.
  set (lines := split_nl (VariantA.notes st)) in *.
  destruct k.
  - destruct (nth_error lines index) as [line|] eqn:Hnth; [|discriminate].
    intros E. injection E as <-. simpl.
    eapply boundedBy_weaken;
      [apply (shiftAfterSplit_bounded (VariantA.lineTimestamps st) index (length lines) Hinv)|].
    eapply Nat.le_trans; [|apply split_join_length].
    rewrite splice_insert_length, array_set_length. lia.
  - destruct ((cursorPos =? 0) && (0 <? index)) eqn:Hcond.
    + destruct (nth_error lines (index - 1)) as [prevLine|] eqn:Hprev;
        [|discriminate].
      intros E. injection E as <-. simpl.
      assert (Hin : index - 1 < length lines)
        by (apply nth_error_Some; congruence).
      eapply boundedBy_weaken;
        [apply (shiftAfterRemove_bounded (VariantA.lineTimestamps st) index (length lines) Hinv)|].
      eapply Nat.le_trans; [|apply split_join_length].
      rewrite splice_remove_length, array_set_length.
      replace (Nat.max (length lines) (S (index - 1))) with (length lines) by lia.
      reflexivity.
    + intros E. injection E as <-. exact Hinv.
  - intros E. injection E as <-. exact Hinv.
Qed.

Lemma step_on_lines (st : VariantA.state) (e : VariantA.event) :
  anchorsOnLines st -> anchorsOnLines (VariantA.step st e).
Proof.
  intros Hinv. destruct e as [now index value|index k cursorPos|b now|m|]; simpl.
  - destruct (VariantA.handleLineChange st now index value) eqn:E; simpl;
      [eapply handleLineChange_on_lines; eauto | exact Hinv].
  - destruct (VariantA.handleKeyDown st index k cursorPos) eqn:E; simpl;
      [eapply handleKeyDown_on_lines; eauto | exact Hinv].
  - exact Hinv.
  - exact Hinv.
  - apply syncEffect_on_lines.
Qed.

Lemma run_on_lines (es : list VariantA.event) (st : VariantA.state) :
  anchorsOnLines st -> anchorsOnLines (VariantA.run st es).
Proof.
  revert st. induction es as [|e es IH]; intros st Hinv; simpl; [exact Hinv|].
  apply IH. now apply step_on_lines.
Qed.

(** C6, line-indexed editor.  Whatever the edits, key presses, recording
    switches, parent updates and runs of the synchronising effect since
    the component was mounted over an empty document, there are never
    more anchors than lines. *)
Theorem anchors_never_exceed_lines :
  forall es : list VariantA.event,
    map_size (VariantA.lineTimestamps (VariantA.run VariantA.initial es))
    <= VariantA.lineCount (VariantA.run VariantA.initial es).
Proof.
  intros es. apply boundedBy_size. apply run_on_lines.
  unfold anchorsOnLines. apply boundedBy_nil.
Qed.

(** C6 on the offset-indexed editor: the offsets stored for a line are not
    moved when an earlier line grows, so the line is anchored again. *)
Lemma offset_editor_anchors_exceed_lines :
  ~ (forall es : list VariantC.event,
       map_size (VariantC.timestampMap (VariantC.run VariantC.initial es))
       <= VariantC.lineCount (VariantC.run VariantC.initial es)).
Proof.
  intros H. specialize (H driftingSession). vm_compute in H. lia.
Qed.

End AnchorCount.

(* ================================================================== *)
(** * The time of a new anchor *)
(* ================================================================== *)

Section RecordingClock.
Import JS Shared.

Lemma adjustedDuration_nonneg (now start : Z) :
  (0 <= adjustedDuration now start)%Z.
Proof. unfold adjustedDuration. apply Z.le_max_l. Qed.

Lemma timesNonNegative_set (m : jsmap) (k : nat) (v : Z) :
  timesNonNegative m -> (0 <= v)%Z -> timesNonNegative (map_set m k v).
Proof.
  intros Hm Hv. induction m as [|[k' v'] m IH]; simpl.
  - intros k0 t [E|[]]. injection E as <- <-. exact Hv.
  - assert (Hm' : timesNonNegative m)
      by (intros k0 t Hin; apply (Hm k0 t); now right).
    destruct (k' =? k).
    + intros k0 t [E|Hin]; [injection E as <- <-; exact Hv|].
      apply (Hm k0 t). now right.
    + intros k0 t [E|Hin]; [apply (Hm k0 t); now left|].
      exact (IH Hm' k0 t Hin).
Qed.

Lemma timesNonNegative_nil : timesNonNegative [].
Proof. intros k t []. Qed.

Lemma shiftAfterRemove_times (m : jsmap) (index : nat) :
  timesNonNegative m -> timesNonNegative (VariantA.shiftAfterRemove m index).
Proof.
  intros Hm. unfold VariantA.shiftAfterRemove.
  apply forEach_invariant_entries; [|apply timesNonNegative_nil].
  intros acc t k Hin Hacc. specialize (Hm k t Hin).
  destruct (k <? index); [now apply timesNonNegative_set|].
  destruct (index <? k); [now apply timesNonNegative_set | exact Hacc].
Qed.

Lemma shiftAfterSplit_times (m : jsmap) (index : nat) :
  timesNonNegative m -> timesNonNegative (VariantA.shiftAfterSplit m index).
Proof.
  intros Hm. unfold VariantA.shiftAfterSplit.
  apply forEach_invariant_entries; [|apply timesNonNegative_nil].
  intros acc t k Hin Hacc. specialize (Hm k t Hin).
  destruct (k <? index + 1); now apply timesNonNegative_set.
Qed.

Lemma syncToParent_times (lines : list jsstring) (m : jsmap) :
  timesNonNegative m ->
  timesNonNegative (VariantA.syncToParentTimestampMap lines m).
Proof.
  intros Hm. unfold VariantA.syncToParentTimestampMap.
  apply forEach_invariant_entries; [|apply timesNonNegative_nil].
  intros acc t k Hin Hacc. apply timesNonNegative_set; [exact Hacc|].
  exact (Hm k t Hin).
Qed.

Lemma step_stores_no_negative_time (st : VariantA.state) (e : VariantA.event) :
  fromTheEditor e -> storesNoNegativeTime st ->
  storesNoNegativeTime (VariantA.step st e).
Proof.
  intros He [Hlt Htm].
  destruct e as [now index value|index k cursorPos|b now|m|]; simpl.
  - unfold VariantA.handleLineChange. cbv zeta.
    destruct (VariantA.is_empty_string value
              && (1 <? length (split_nl (VariantA.notes st)))).
    + simpl. split; [now apply shiftAfterRemove_times|].
      apply syncToParent_times. now apply shiftAfterRemove_times.
    + destruct (VariantA.firstCharacterTyped st
                  (nth_error (split_nl (VariantA.notes st)) index) value)
        as [[|]|]; simpl; [| split; assumption | split; assumption].
      destruct (negb (map_has (VariantA.lineTimestamps st) index)); simpl;
        [|split; assumption].
      assert (Hnew : timesNonNegative
                (map_set (VariantA.lineTimestamps st) index
                   (adjustedDuration now (VariantA.recordingStartTime st)))).
      { apply timesNonNegative_set; [exact Hlt|]. apply adjustedDuration_nonneg. }
      split; [exact Hnew | now apply syncToParent_times].
  - unfold VariantA.handleKeyDown. cbv zeta. destruct k.
    + destruct (nth_error (split_nl (VariantA.notes st)) index); simpl;
        [|split; assumption].
      split; [now apply shiftAfterSplit_times|].
      apply syncToParent_times. now apply shiftAfterSplit_times.
    + destruct ((cursorPos =? 0) && (0 <? index)); simpl; [|split; assumption].
      destruct (nth_error (split_nl (VariantA.notes st)) (index - 1)); simpl;
        [|split; assumption].
      split; [now apply shiftAfterRemove_times|].
      apply syncToParent_times. now apply shiftAfterRemove_times.
    + simpl. split; assumption.
  - split; assumption.
  - destruct He.
  - split; [|exact Htm]. simpl.
    apply forEach_invariant_entries; [|apply timesNonNegative_nil].
    intros acc t k Hin Hacc.
    destruct (VariantA.offsetToLine (split_nl (VariantA.notes st)) k);
      [|exact Hacc].
    apply timesNonNegative_set; [exact Hacc | exact (Htm k t Hin)].
Qed.

(** X17.  Along a session of the editor no negative time is ever stored,
    in [lineTimestamps] or in the map handed to the parent. *)
Lemma stored_times_never_negative (es : list VariantA.event) :
  Forall fromTheEditor es ->
  storesNoNegativeTime (VariantA.run VariantA.initial es).
Proof.
  assert (Hgen : forall st, storesNoNegativeTime st -> Forall fromTheEditor es ->
                            storesNoNegativeTime (VariantA.run st es)).
  { induction es as [|e es IH]; intros st Hst Hes; simpl; [exact Hst|].
    inversion Hes as [|? ? He Hrest]; subst.
    apply IH; [now apply step_stores_no_negative_time | exact Hrest]. }
  apply Hgen. split; apply timesNonNegative_nil.
Qed.



End RecordingClock.

(* ================================================================== *)
(** * An edit of a line that is not there *)
(* ================================================================== *)

Section MissingLine.
Import JS Shared.

(** [handleLineChange] as a function of any index, also one that the
    rendering never binds: it returns exactly when the line exists, or
    recording is off, or the edit is the emptying one on a document of
    several lines; otherwise reading the missing line throws. *)
Theorem handleLineChange_returns_iff :
  forall (st : VariantA.state) (now : Z) (index : nat) (value : jsstring),
    is_ok (VariantA.handleLineChange st now index value) = true <->
    index < VariantA.lineCount st \/
    VariantA.isRecording st = false \/
    (value = [] /\ 1 < VariantA.lineCount st).
Proof.
  intros st now index value.
  unfold VariantA.handleLineChange, VariantA.lineCount. cbv zeta.
  set (lines := split_nl (VariantA.notes st)).
  destruct (VariantA.is_empty_string value && (1 <? length lines)) eqn:Hdel.
  - apply andb_true_iff in Hdel. destruct Hdel as [Hv Hl].
    apply Nat.ltb_lt in Hl. destruct value; [|discriminate]. simpl. tauto.
  - assert (Hnodel : ~ (value = [] /\ 1 < length lines)).
    { intros [-> Hl]. apply Nat.ltb_lt in Hl. simpl in Hdel.
      rewrite Hl in Hdel. discriminate. }
    unfold VariantA.firstCharacterTyped.
    destruct (VariantA.isRecording st) eqn:Hrec.
    + destruct (nth_error lines index) as [old|] eqn:Hnth.
      * assert (index < length lines) by (apply nth_error_Some; congruence).
        destruct ((length (trim old) =? 0) && (0 <? length (trim value)));
          [destruct (negb (map_has (VariantA.lineTimestamps st) index))|];
          simpl; tauto.
      * apply nth_error_None in Hnth. simpl.
        split; [discriminate|]. intros [H|[H|H]]; [lia | discriminate | tauto].
    + simpl. tauto.
Qed.

(** Called with an index that the rendering does not bind: over the empty
    document, while recording, an edit of line 1 throws. *)
Lemma handleLineChange_throws_on_missing_line :
  ~ (forall (st : VariantA.state) (now : Z) (index : nat) (value : jsstring),
       is_ok (VariantA.handleLineChange st now index value) = true).
Proof.
  intros H.
  specialize (H (VariantA.mkState true [] [] 0 []) 500%Z 1 (lit "a")).
  vm_compute in H. discriminate.
Qed.

End MissingLine.

(* ================================================================== *)
(** * The nearest anchor *)
(* ================================================================== *)

Section NearestAnchor.
Import JS Shared.

Lemma nearestSoFar_step (index : nat) (seen : jsmap)
    (acc : option Z * VariantB.distance) (pos : nat) (time : Z) :
  nearestSoFar index seen acc ->
  nearestSoFar index (seen ++ [(pos, time)])
    (let dist := Z.abs (Z.of_nat pos - Z.of_nat index) in
     if VariantB.below dist (snd acc) && (dist <? 20)%Z
     then (Some time, VariantB.Finite dist) else acc).
Proof.
  cbv zeta. fold (distanceTo index pos).
  destruct acc as [[t|] [|d]]; simpl; try tauto.
  - intros (before & p0 & after & -> & -> & Hd & Hb & Ha).
    destruct (Z.ltb_spec (distanceTo index pos) (distanceTo index p0)) as [Hlt|Hge];
      simpl.
    + destruct (Z.ltb_spec (distanceTo index pos) 20) as [H20|H20]; [|lia].
      exists (before ++ (p0, t) :: after), pos, [].
      repeat split; [exact H20 | | intros p t' []].
      intros p t' Hin. apply in_app_or in Hin. destruct Hin as [Hin|[Hin|Hin]].
      * specialize (Hb p t' Hin). lia.
      * injection Hin as <- <-. exact Hlt.
      * specialize (Ha p t' Hin). lia.
    + exists before, p0, (after ++ [(pos, time)]).
      repeat split; [now rewrite <- app_assoc | exact Hd | exact Hb |].
      intros p t' Hin. apply in_app_or in Hin. destruct Hin as [Hin|[Hin|[]]].
      * exact (Ha p t' Hin).
      * injection Hin as <- <-. exact Hge.
  - intros Hall.
    destruct (Z.ltb_spec (distanceTo index pos) 20) as [H20|H20].
    + exists seen, pos, []. repeat split; [exact H20 | | intros p t' []].
      intros p t' Hin. specialize (Hall p t' Hin). lia.
    + intros p t' Hin. apply in_app_or in Hin. destruct Hin as [Hin|[Hin|[]]].
      * exact (Hall p t' Hin).
      * injection Hin as <- <-. exact H20.
Qed.

Lemma nearestSoFar_fold (index : nat) (rest seen : jsmap)
    (acc : option Z * VariantB.distance) :
  nearestSoFar index seen acc ->
  nearestSoFar index (seen ++ rest)
    (fold_left
       (fun acc kv =>
          let dist := Z.abs (Z.of_nat (fst kv) - Z.of_nat index) in
          if VariantB.below dist (snd acc) && (dist <? 20)%Z
          then (Some (snd kv), VariantB.Finite dist) else acc)
       rest acc).
Proof.
  revert seen acc. induction rest as [|[pos time] rest IH]; intros seen acc Hacc.
  - simpl. now rewrite app_nil_r.
  - simpl fold_left.
    replace (seen ++ (pos, time) :: rest) with ((seen ++ [(pos, time)]) ++ rest)
      by (rewrite <- app_assoc; reflexivity).
    apply IH. apply (nearestSoFar_step index seen acc pos time Hacc).
Qed.

(** C8.  [findNearestTimestamp] gives nothing exactly when every stored
    anchor is 20 or more away from the target (so also when there is
    none); otherwise it gives the time of an anchor at the least distance,
    that distance being below 20, and of the first such anchor in the
    order of the map. *)
Theorem findNearestTimestamp_nearest :
  forall (timestampMap : jsmap) (index : nat),
    match VariantB.findNearestTimestamp timestampMap index with
    | None =>
        forall pos time,
          In (pos, time) timestampMap -> (20 <= distanceTo index pos)%Z
    | Some time =>
        exists before pos after,
          timestampMap = before ++ (pos, time) :: after /\
          (distanceTo index pos < 20)%Z /\
          (forall p t, In (p, t) before ->
             (distanceTo index pos < distanceTo index p)%Z) /\
          (forall p t, In (p, t) after ->
             (distanceTo index pos <= distanceTo index p)%Z)
    end.
Proof.
  intros timestampMap index.
  unfold VariantB.findNearestTimestamp, forEach.
  pose proof (nearestSoFar_fold index timestampMap [] (None, VariantB.Infinity))
    as H.
  simpl app in H.
  match type of H with _ -> nearestSoFar _ _ ?r => destruct r as [[t|] [|d]] end;
    simpl in *.
  - exfalso. apply H. intros pos time [].
  - destruct H as (before & pos & after & -> & -> & Hd & Hb & Ha);
      [intros pos time []|].
    exists before, pos, after. repeat split; assumption.
  - apply H. intros pos time [].
  - exfalso. apply H. intros pos time [].
Qed.

End NearestAnchor.

(* ================================================================== *)
(** * The inline marker and the exporter *)
(* ================================================================== *)

Section MarkerExport.
Import JS Shared WordExporter.

Lemma padStart2_below_100 :
  forallb (fun n => two_digits (padStart2 (toString (Z.of_nat n)))) (seq 0 100)
  = true.
Proof. vm_compute. reflexivity. Qed.

Lemma padStart2_two_digits (z : Z) :
  (0 <= z < 100)%Z -> two_digits (padStart2 (toString z)) = true.
Proof.
  intros Hz. pose proof padStart2_below_100 as H.
  rewrite forallb_forall in H. specialize (H (Z.to_nat z)).
  rewrite Z2Nat.id in H by lia. apply H. apply in_seq. lia.
Qed.

Lemma two_digits_shape (s : jsstring) :
  two_digits s = true ->
  exists d1 d2, s = [d1; d2] /\ is_digit d1 = true /\ is_digit d2 = true.
Proof.
  destruct s as [|d1 [|d2 [|d3 s]]]; simpl; try discriminate.
  intros H. apply andb_true_iff in H. exists d1, d2. tauto.
Qed.

(** Below 100 hours the time is written [HH:MM:SS]. *)
Lemma formatTime_shape (ms : Z) :
  (0 <= ms < 360000000)%Z ->
  exists h1 h2 m1 m2 s1 s2,
    formatTime ms = [h1; h2; 58; m1; m2; 58; s1; s2]%N /\
    is_digit h1 = true /\ is_digit h2 = true /\
    is_digit m1 = true /\ is_digit m2 = true /\
    is_digit s1 = true /\ is_digit s2 = true.
Proof.
  intros Hms. unfold formatTime. cbv zeta.
  assert (Hts : (0 <= ms / 1000 < 360000)%Z).
  { split; [apply Z.div_pos; lia | apply Z.div_lt_upper_bound; lia]. }
  set (ts := (ms / 1000)%Z) in *.
  assert (Hh : (0 <= ts / 3600 < 100)%Z).
  { split; [apply Z.div_pos; lia | apply Z.div_lt_upper_bound; lia]. }
  assert (Hm : (0 <= Z.rem ts 3600 / 60 < 60)%Z).
  { rewrite Z.rem_mod_nonneg by lia.
    pose proof (Z.mod_pos_bound ts 3600 ltac:(lia)).
    split; [apply Z.div_pos; lia | apply Z.div_lt_upper_bound; lia]. }
  assert (Hs : (0 <= Z.rem ts 60 < 60)%Z).
  { rewrite Z.rem_mod_nonneg by lia. apply Z.mod_pos_bound. lia. }
  destruct (two_digits_shape _ (padStart2_two_digits (ts / 3600) Hh))
    as (h1 & h2 & -> & Hh1 & Hh2).
  destruct (two_digits_shape _ (padStart2_two_digits (Z.rem ts 3600 / 60)
                                  ltac:(lia)))
    as (m1 & m2 & -> & Hm1 & Hm2).
  destruct (two_digits_shape _ (padStart2_two_digits (Z.rem ts 60) ltac:(lia)))
    as (s1 & s2 & -> & Hs1 & Hs2).
  exists h1, h2, m1, m2, s1, s2. simpl. tauto.
Qed.

Lemma drop_spaces_suffix (s : jsstring) :
  exists sp, s = sp ++ drop_spaces s.
Proof.
  induction s as [|c s [sp IH]]; [exists []; reflexivity|]. simpl.
  destruct (is_space c); [|exists []; reflexivity].
  exists (c :: sp). simpl. now rewrite <- IH.
Qed.

(** The pattern takes the whole marker, and the white space after it. *)
Lemma match_timestamp_marker (ms : Z) (post : jsstring) :
  (0 <= ms < 360000000)%Z ->
  match_timestamp (VariantB.marker ms ++ post) = Some (drop_spaces post).
Proof.
  intros Hms. unfold VariantB.marker.
  destruct (formatTime_shape ms Hms)
    as (h1 & h2 & m1 & m2 & s1 & s2 & -> & Hh1 & Hh2 & Hm1 & Hm2 & Hs1 & Hs2).
  unfold match_timestamp, re_digit2. simpl.
  rewrite Hh1. simpl. rewrite Hh2. simpl. rewrite Hm1. simpl. rewrite Hm2.
  simpl. rewrite Hs1. simpl. rewrite Hs2. reflexivity.
Qed.

(** ** A match that starts before a bracket ends before it *)

Lemma re_digit_before (x r : jsstring) :
  re_digit (x ++ 91%N :: r) = before (91%N :: r) (re_digit x).
Proof. destruct x as [|c x]; simpl; [reflexivity|]. now destruct (is_digit c). Qed.

Lemma re_char_before (x r : jsstring) :
  re_char 58 (x ++ 91%N :: r) = before (91%N :: r) (re_char 58 x).
Proof. destruct x as [|c x]; simpl; [reflexivity|]. now destruct (c =? 58)%N. Qed.

Lemma re_opt_close_before (x r : jsstring) :
  re_opt 93 (x ++ 91%N :: r) = re_opt 93 x ++ 91%N :: r.
Proof. destruct x as [|c x]; simpl; [reflexivity|]. now destruct (c =? 93)%N. Qed.

Lemma re_opt_open_before (c : N) (x r : jsstring) :
  re_opt 91 ((c :: x) ++ 91%N :: r) = re_opt 91 (c :: x) ++ 91%N :: r.
Proof. simpl. now destruct (c =? 91)%N. Qed.

Lemma drop_spaces_before (x r : jsstring) :
  drop_spaces (x ++ 91%N :: r) = drop_spaces x ++ 91%N :: r.
Proof.
  induction x as [|c x IH]; simpl; [reflexivity|].
  now destruct (is_space c).
Qed.

Lemma andThen_before (rest : jsstring) (o : option jsstring)
    (f g : jsstring -> option jsstring) :
  (forall x, g (x ++ rest) = before rest (f x)) ->
  andThen (before rest o) g = before rest (andThen o f).
Proof. intros H. destruct o as [x|]; simpl; [apply H | reflexivity]. Qed.

Lemma re_digit2_before (x r : jsstring) :
  re_digit2 (x ++ 91%N :: r) = before (91%N :: r) (re_digit2 x).
Proof.
  unfold re_digit2. rewrite re_digit_before.
  apply andThen_before. intros y. apply re_digit_before.
Qed.

Lemma match_timestamp_before (c : N) (x r : jsstring) :
  match_timestamp ((c :: x) ++ 91%N :: r)
  = before (91%N :: r) (match_timestamp (c :: x)).
Proof.
  unfold match_timestamp. rewrite re_opt_open_before, re_digit2_before.
  apply andThen_before. intros y1. rewrite re_char_before.
  apply andThen_before. intros y2. rewrite re_digit2_before.
  apply andThen_before. intros y3. rewrite re_char_before.
  apply andThen_before. intros y4. rewrite re_digit2_before.
  apply andThen_before. intros y5.
  rewrite re_opt_close_before, drop_spaces_before. reflexivity.
Qed.

Lemma replace_from_before (pre r : jsstring) (skip : nat) :
  skip <= length pre ->
  replace_from skip (pre ++ 91%N :: r)
  = replace_from skip pre ++ replace_from 0 (91%N :: r).
Proof.
  revert skip. induction pre as [|c pre IH]; intros skip Hskip.
  - simpl in Hskip. replace skip with 0 by lia. reflexivity.
  - destruct skip as [|k].
    + change (replace_from 0 ((c :: pre) ++ 91%N :: r)) with
        (match match_timestamp ((c :: pre) ++ 91%N :: r) with
         | Some rest =>
             replace_from (length (pre ++ 91%N :: r) - length rest)
                          (pre ++ 91%N :: r)
         | None => c :: replace_from 0 (pre ++ 91%N :: r)
         end).
      change (replace_from 0 (c :: pre)) with
        (match match_timestamp (c :: pre) with
         | Some rest => replace_from (length pre - length rest) pre
         | None => c :: replace_from 0 pre
         end).
      rewrite match_timestamp_before.
      destruct (match_timestamp (c :: pre)) as [x|]; simpl before.
      * rewrite !length_app.
        replace (length pre + length (91%N :: r) - (length x + length (91%N :: r)))
          with (length pre - length x) by lia.
        apply IH. lia.
      * rewrite IH by lia. reflexivity.
    + simpl in Hskip. apply (IH k). lia.
Qed.

Lemma replace_from_skip (u t : jsstring) :
  replace_from (length u) (u ++ t) = replace_from 0 t.
Proof. induction u as [|c u IH]; [reflexivity | exact IH]. Qed.

(** C10, as the code has it.  Below 100 hours the pattern matches the
    inserted marker in full, with all the white space that follows it;
    [removeTimestamps] cuts that out and treats the text before the marker
    and the text after the white space as it would on their own.  So the
    rest of the text is unchanged when it holds no match of its own and
    does not go on with white space after the marker. *)
Theorem removeTimestamps_removes_marker :
  forall (ms : Z) (pre post : jsstring),
    (0 <= ms < 360000000)%Z ->
    match_timestamp (VariantB.marker ms ++ post) = Some (drop_spaces post) /\
    removeTimestamps (pre ++ VariantB.marker ms ++ post)
    = removeTimestamps pre ++ removeTimestamps (drop_spaces post) /\
    (removeTimestamps pre = pre -> removeTimestamps post = post ->
     drop_spaces post = post ->
     removeTimestamps (pre ++ VariantB.marker ms ++ post) = pre ++ post).
Proof.
  intros ms pre post Hms.
  pose proof (match_timestamp_marker ms post Hms) as Hmatch.
  assert (Hcut : removeTimestamps (pre ++ VariantB.marker ms ++ post)
                 = removeTimestamps pre ++ removeTimestamps (drop_spaces post)).
  { unfold removeTimestamps.
    change (VariantB.marker ms ++ post)
      with (91%N :: (formatTime ms ++ [93%N; 32%N]) ++ post) in *.
    rewrite replace_from_before by lia. f_equal.
    set (body := (formatTime ms ++ [93%N; 32%N]) ++ post) in *.
    change (replace_from 0 (91%N :: body)) with
      (match match_timestamp (91%N :: body) with
       | Some rest => replace_from (length body - length rest) body
       | None => 91%N :: replace_from 0 body
       end).
    rewrite Hmatch.
    destruct (drop_spaces_suffix post) as [sp Hsp].
    assert (Hbody : body = ((formatTime ms ++ [93%N; 32%N]) ++ sp)
                           ++ drop_spaces post).
    { unfold body. rewrite Hsp at 1. apply app_assoc. }
    rewrite Hbody at 1 2. rewrite length_app, Nat.add_sub.
    apply replace_from_skip. }
  split; [exact Hmatch|]. split; [exact Hcut|].
  intros Hpre Hpost Hlead. rewrite Hcut, Hlead, Hpre, Hpost. reflexivity.
Qed.

Lemma removeTimestamps_removes_marker_witness :
  (0 <= 15000 < 360000000)%Z /\
  removeTimestamps (lit "ab" ++ VariantB.marker 15000 ++ lit "cd")
  = lit "ab" ++ lit "cd".
Proof.
  split; [lia|].
  apply (removeTimestamps_removes_marker 15000 (lit "ab") (lit "cd"));
    [lia | reflexivity | reflexivity | reflexivity].
Defined.

(** C10 as stated fails: a time written by hand before the marker is cut
    out with it. *)
Lemma removeTimestamps_cuts_other_times :
  ~ (forall (ms : Z) (pre post : jsstring),
       (0 <= ms < 360000000)%Z ->
       removeTimestamps (pre ++ VariantB.marker ms ++ post) = pre ++ post).
Proof.
  intros H.
  specialize (H 15000%Z (lit "at 10:30:45") (lit "x") ltac:(lia)).
  vm_compute in H. discriminate.
Qed.

End MarkerExport.

(* ================================================================== *)
(** * The clock string *)
(* ================================================================== *)

Section ClockString.
Import JS Shared.

Lemma padStart2_spells_below_100 :
  forallb (fun n => spells (Z.of_nat n) (padStart2 (toString (Z.of_nat n))))
          (seq 0 100) = true.
Proof. vm_compute. reflexivity. Qed.

Lemma padStart2_spells (z : Z) :
  (0 <= z < 100)%Z ->
  exists d1 d2,
    padStart2 (toString z) = [d1; d2] /\
    is_digit d1 = true /\ is_digit d2 = true /\
    (10 * digitValue d1 + digitValue d2 = z)%Z.
Proof.
  intros Hz. pose proof padStart2_spells_below_100 as H.
  rewrite forallb_forall in H. specialize (H (Z.to_nat z)).
  rewrite Z2Nat.id in H by lia.
  assert (Hin : In (Z.to_nat z) (seq 0 100)) by (apply in_seq; lia).
  specialize (H Hin). unfold spells in H.
  destruct (padStart2 (toString z)) as [|d1 [|d2 [|d3 s]]]; try discriminate.
  apply andb_true_iff in H. destruct H as [H Hv].
  apply andb_true_iff in H. destruct H as [H1 H2].
  apply Z.eqb_eq in Hv. exists d1, d2. auto.
Qed.

(** The fields of the whole seconds [ts]. *)
Lemma clock_fields (ts : Z) :
  (0 <= ts)%Z ->
  (0 <= Z.rem ts 3600 / 60 < 60)%Z /\ (0 <= Z.rem ts 60 < 60)%Z /\
  (ts / 3600 * 3600 + Z.rem ts 3600 / 60 * 60 + Z.rem ts 60 = ts)%Z.
Proof.
  intros Hts. rewrite !Z.rem_mod_nonneg by lia.
  pose proof (Z.mod_pos_bound ts 3600 ltac:(lia)) as H3600.
  pose proof (Z.mod_pos_bound ts 60 ltac:(lia)) as H60.
  pose proof (Z.div_mod ts 3600 ltac:(lia)) as Hd.
  pose proof (Z.div_mod (ts mod 3600) 60 ltac:(lia)) as Hd'.
  assert (Hmm : ((ts mod 3600) mod 60 = ts mod 60)%Z).
  { apply Z.mod_mod_divide. exists 60%Z. reflexivity. }
  rewrite Hmm in Hd'.
  split; [split; [apply Z.div_pos; lia | apply Z.div_lt_upper_bound; lia]|].
  split; [exact H60 | lia].
Qed.

(** X1.  Below 100 hours [formatTime] writes [HH:MM:SS]: read back, the
    three fields are numbers below 100, 60 and 60 that add up to the
    whole seconds of [ms]. *)
Theorem formatTime_reads_back :
  forall ms : Z,
    (0 <= ms < 360000000)%Z ->
    exists h m s,
      readClock (formatTime ms) = Some (h, m, s) /\
      (0 <= h < 100)%Z /\ (0 <= m < 60)%Z /\ (0 <= s < 60)%Z /\
      (h * 3600 + m * 60 + s = ms / 1000)%Z.
Proof.
  intros ms Hms. unfold formatTime. cbv zeta.
  assert (Hts : (0 <= ms / 1000 < 360000)%Z).
  { split; [apply Z.div_pos; lia | apply Z.div_lt_upper_bound; lia]. }
  set (ts := (ms / 1000)%Z) in *.
  destruct (clock_fields ts ltac:(lia)) as (Hm & Hs & Hsum).
  assert (Hh : (0 <= ts / 3600 < 100)%Z).
  { split; [apply Z.div_pos; lia | apply Z.div_lt_upper_bound; lia]. }
  destruct (padStart2_spells _ Hh) as (h1 & h2 & -> & Hh1 & Hh2 & Hhv).
  destruct (padStart2_spells (Z.rem ts 3600 / 60) ltac:(lia))
    as (m1 & m2 & -> & Hm1 & Hm2 & Hmv).
  destruct (padStart2_spells (Z.rem ts 60) ltac:(lia))
    as (s1 & s2 & -> & Hs1 & Hs2 & Hsv).
  exists (ts / 3600)%Z, (Z.rem ts 3600 / 60)%Z, (Z.rem ts 60)%Z.
  split; [|repeat split; lia].
  cbn [app readClock forallb].
  rewrite Hh1, Hh2, Hm1, Hm2, Hs1, Hs2, !N.eqb_refl. cbn [andb].
  rewrite Hhv, Hmv, Hsv. reflexivity.
Qed.

Lemma formatTime_reads_back_witness :
  (0 <= 3725999 < 360000000)%Z /\
  exists h m s,
    readClock (formatTime 3725999) = Some (h, m, s) /\
    (h * 3600 + m * 60 + s = 3725)%Z.
Proof.
  split; [lia|].
  destruct (formatTime_reads_back 3725999 ltac:(lia))
    as (h & m & s & Hread & _ & _ & _ & Hsum).
  exists h, m, s. split; [exact Hread | exact Hsum].
Defined.

End ClockString.

Section ClockWidth.
Import JS Shared.

Lemma uint_codes_length_short (u : Decimal.uint) :
  length (uint_codes u) <= 2 -> (Pos.of_uint u <= 99)%N.
Proof.
  intros Hlen.
  destruct u as [|u|u|u|u|u|u|u|u|u|u]; [vm_compute; discriminate|..];
    (destruct u as [|u|u|u|u|u|u|u|u|u|u]; [vm_compute; discriminate|..];
     (destruct u; [vm_compute; discriminate|..]; simpl in Hlen; lia)).
Qed.

Lemma toString_short (z : Z) :
  (0 <= z)%Z -> (length (toString z) <= 2 <-> (z < 100)%Z).
Proof.
  intros Hz. split.
  - destruct z as [|p|p]; [lia | | lia]. simpl. intros Hlen.
    apply uint_codes_length_short in Hlen.
    rewrite DecimalPos.Unsigned.of_to in Hlen. lia.
  - intros Hlt.
    destruct (padStart2_spells z ltac:(lia)) as (d1 & d2 & Hpad & _).
    apply (f_equal (@length N)) in Hpad. unfold padStart2 in Hpad.
    rewrite length_app, repeat_length in Hpad. simpl in Hpad. lia.
Qed.

Lemma padStart2_length (s : jsstring) :
  length (padStart2 s) = Nat.max 2 (length s).
Proof. unfold padStart2. rewrite length_app, repeat_length. lia. Qed.

(** X2.  [formatTime] is eight code units long exactly below 100 hours:
    from then on the hours take more than two digits, they are never cut. *)
Theorem formatTime_length_8_iff :
  forall ms : Z,
    (0 <= ms)%Z ->
    (length (formatTime ms) = 8 <-> (ms < 360000000)%Z).
Proof.
  intros ms Hms. unfold formatTime. cbv zeta.
  assert (Hts : (0 <= ms / 1000)%Z) by (apply Z.div_pos; lia).
  set (ts := (ms / 1000)%Z) in *.
  destruct (clock_fields ts Hts) as (Hm & Hs & _).
  assert (Hh : (0 <= ts / 3600)%Z) by (apply Z.div_pos; lia).
  pose proof (toString_short (ts / 3600) Hh) as Hhours.
  pose proof (proj2 (toString_short (Z.rem ts 3600 / 60) ltac:(lia)) ltac:(lia))
    as Hminutes.
  pose proof (proj2 (toString_short (Z.rem ts 60) ltac:(lia)) ltac:(lia))
    as Hseconds.
  rewrite length_app. cbn [length]. rewrite length_app. cbn [length].
  rewrite !padStart2_length.
  assert (Hiff : (ts / 3600 < 100)%Z <-> (ms < 360000000)%Z).
  { split; intros H.
    - assert (ts < 360000)%Z.
      { destruct (Z.lt_ge_cases ts 360000) as [|Hge]; [assumption|].
        apply (Z.div_le_mono _ _ 3600) in Hge; [|lia].
        change (360000 / 3600)%Z with 100%Z in Hge. lia. }
      unfold ts in *.
      destruct (Z.lt_ge_cases ms 360000000) as [|Hge]; [assumption|].
      apply (Z.div_le_mono _ _ 1000) in Hge; [|lia].
      change (360000000 / 1000)%Z with 360000%Z in Hge. lia.
    - apply Z.div_lt_upper_bound; [lia|].
      assert (ts < 360000)%Z by (apply Z.div_lt_upper_bound; lia). lia. }
  rewrite <- Hiff, <- Hhours. lia.
Qed.

Lemma formatTime_length_8_iff_witness :
  (0 <= 360000000)%Z /\ length (formatTime 360000000) <> 8.
Proof.
  split; [lia|]. intros H.
  apply (formatTime_length_8_iff 360000000 ltac:(lia)) in H. lia.
Defined.

End ClockWidth.

(* ================================================================== *)
(** * Offsets and the text *)
(* ================================================================== *)

Section OffsetsInText.
Import JS Shared.

Lemma join_nl_app (a b : list jsstring) :
  a <> [] -> b <> [] -> join_nl (a ++ b) = join_nl a ++ NL :: join_nl b.
Proof.
  induction a as [|x a IH]; intros Ha Hb; [congruence|].
  destruct a as [|y a].
  - simpl app. rewrite join_nl_cons by assumption. reflexivity.
  - change ((x :: y :: a) ++ b) with (x :: ((y :: a) ++ b)).
    rewrite join_nl_cons by (simpl; discriminate).
    rewrite IH by (assumption || discriminate).
    rewrite (join_nl_cons x (y :: a)) by discriminate.
    rewrite <- app_assoc. reflexivity.
Qed.

Lemma startOffset_increasing (lines : list jsstring) (i j : nat) :
  i < j -> j <= length lines -> startOffset lines i < startOffset lines j.
Proof.
  revert i j. induction lines as [|l rest IH]; intros i j Hij Hj; simpl in Hj;
    [lia|].
  destruct j as [|j]; [lia|]. destruct i as [|i]; simpl; [lia|].
  specialize (IH i j ltac:(lia) ltac:(lia)). lia.
Qed.

Lemma startOffset_all (lines : list jsstring) :
  lines <> [] -> startOffset lines (length lines) = length (join_nl lines) + 1.
Proof.
  intros Hne. rewrite <- join_prefix_length.
  - now rewrite firstn_all.
  - destruct lines; [congruence | simpl; lia].
Qed.

(** X3.  The offset that [syncToParentTimestampMap] gives to an existing
    line is where that line stands in the text: the line is read there,
    and what comes just before, but for line 0, is a newline. *)
Theorem lineToOffset_locates_line :
  forall (notes : jsstring) (i : nat) (l : jsstring),
    nth_error (split_nl notes) i = Some l ->
    firstn (length l) (skipn (VariantA.lineToOffset (split_nl notes) i) notes)
    = l /\
    (0 < i ->
     nth_error notes (VariantA.lineToOffset (split_nl notes) i - 1) = Some NL).
Proof.
  intros notes i l Hnth.
  destruct (nth_error_decompose _ _ _ Hnth)
    as (pre & post & Hsplit & Hlen & Hpre & _).
  assert (Hi : i < length (split_nl notes)) by (apply nth_error_Some; congruence).
  rewrite lineToOffset_startOffset by lia.
  destruct i as [|i].
  - split; [|lia].
    destruct pre; [|simpl in Hlen; lia]. simpl in Hsplit.
    rewrite <- (join_split notes) at 2. rewrite Hsplit.
    assert (Hz : startOffset (l :: post) 0 = 0) by reflexivity.
    rewrite Hz. simpl skipn.
    destruct post as [|q post].
    + simpl. apply firstn_all.
    + try rewrite join_nl_cons by discriminate.
      rewrite firstn_app, firstn_all, Nat.sub_diag. simpl. apply app_nil_r.
  - rewrite <- join_prefix_length by lia. rewrite Hpre.
    assert (Hnotes : notes = join_nl pre ++ NL :: join_nl (l :: post)).
    { rewrite <- (join_split notes) at 1. rewrite Hsplit.
      apply join_nl_app; [|discriminate].
      destruct pre; [simpl in Hlen; lia | discriminate]. }
    split.
    + rewrite Hnotes.
      replace (length (join_nl pre) + 1)
        with (length (join_nl pre ++ [NL])) by (rewrite length_app; reflexivity).
      replace (join_nl pre ++ NL :: join_nl (l :: post))
        with ((join_nl pre ++ [NL]) ++ join_nl (l :: post))
        by (rewrite <- app_assoc; reflexivity).
      rewrite skipn_app, skipn_all, Nat.sub_diag. simpl skipn. simpl app.
      destruct post as [|q post].
      * simpl. apply firstn_all.
      * try rewrite join_nl_cons by discriminate.
        rewrite firstn_app, firstn_all, Nat.sub_diag. simpl. apply app_nil_r.
    + intros _. rewrite Hnotes.
      replace (length (join_nl pre) + 1 - 1) with (length (join_nl pre)) by lia.
      rewrite nth_error_app2, Nat.sub_diag by lia. reflexivity.
Qed.

Lemma lineToOffset_locates_line_witness :
  nth_error (split_nl (lit "ab" ++ NL :: lit "cd")) 1 = Some (lit "cd") /\
  firstn 2 (skipn (VariantA.lineToOffset (split_nl (lit "ab" ++ NL :: lit "cd")) 1)
                  (lit "ab" ++ NL :: lit "cd")) = lit "cd".
Proof.
  split; [reflexivity|].
  apply (lineToOffset_locates_line (lit "ab" ++ NL :: lit "cd") 1 (lit "cd")).
  reflexivity.
Defined.




Lemma scan_lines_none (lines : list jsstring) (i0 cur position : nat) :
  cur <= position -> lines <> [] \/ cur < position ->
  (VariantA.scan_lines lines i0 cur position = None <->
   cur + startOffset lines (length lines) < position).
Proof.
  revert i0 cur. induction lines as [|x rest IH]; intros i0 cur Hle Hor.
  - simpl. destruct Hor as [Hne|Hlt]; [congruence|]. split; [lia | reflexivity].
  - cbn [VariantA.scan_lines]. cbv zeta.
    destruct (Nat.leb_spec cur position) as [_|Hc]; [|lia]. cbn [andb].
    simpl length. simpl startOffset.
    destruct (Nat.leb_spec position (cur + length x + 1)) as [Hin|Hout].
    + split; [discriminate | lia].
    + rewrite IH by (lia || (right; lia)). lia.
Qed.

(** X5.  The effect finds a line for every offset from 0 to one past the
    end of the text, and for no offset beyond: an entry of the parent's
    map that lies further out is dropped without a sound. *)
Theorem offsetToLine_none_iff :
  forall (notes : jsstring) (position : nat),
    VariantA.offsetToLine (split_nl notes) position = None <->
    length notes + 1 < position.
Proof.
  intros notes position. unfold VariantA.offsetToLine.
  rewrite scan_lines_none by (lia || (left; apply split_nl_nonempty)).
  rewrite startOffset_all by apply split_nl_nonempty.
  rewrite join_split. lia.
Qed.

End OffsetsInText.

Section AnchorsToParent.
Import JS Shared.

Lemma forEach_ext {S} (m : jsmap) (body body' : S -> Z -> nat -> S) (init : S) :
  (forall acc t k, In k (keys m) -> body acc t k = body' acc t k) ->
  forEach m body init = forEach m body' init.
Proof.
  unfold forEach. revert init.
  induction m as [|[k v] m IH]; intros init Hext; simpl; [reflexivity|].
  rewrite Hext by (now left). apply IH.
  intros acc t k' Hin. apply Hext. now right.
Qed.

Lemma relabel_length (g : nat -> option nat) (m : jsmap) :
  (forall k, In k (keys m) -> g k <> None) ->
  length (relabel g m) = length m.
Proof.
  induction m as [|[k v] m IH]; intros Hdef; [reflexivity|].
  simpl. rewrite length_app, IH by (intros k' Hin; apply Hdef; now right).
  specialize (Hdef k (or_introl eq_refl)).
  destruct (g k); [reflexivity | congruence].
Qed.

Lemma offsetOfLine_injective (lines : list jsstring) :
  injective_where_defined (offsetOfLine lines).
Proof.
  intros k1 k2 k'. unfold offsetOfLine.
  destruct (Nat.ltb_spec k1 (length lines)) as [H1|]; [|discriminate].
  destruct (Nat.ltb_spec k2 (length lines)) as [H2|]; [|discriminate].
  intros E1 E2. injection E1 as E1. injection E2 as E2.
  rewrite lineToOffset_startOffset in E1, E2 by lia.
  destruct (Nat.lt_trichotomy k1 k2) as [Hlt|[Heq|Hgt]]; [|exact Heq|].
  - pose proof (startOffset_increasing lines k1 k2 Hlt ltac:(lia)). lia.
  - pose proof (startOffset_increasing lines k2 k1 Hgt ltac:(lia)). lia.
Qed.

Lemma syncToParent_relabel (lines : list jsstring) (lt : jsmap) :
  wf lt -> (forall k, In k (keys lt) -> k < length lines) ->
  VariantA.syncToParentTimestampMap lines lt = relabel (offsetOfLine lines) lt.
Proof.
  intros Hwf Hin. unfold VariantA.syncToParentTimestampMap.
  rewrite (forEach_ext lt _
             (fun acc t k => match offsetOfLine lines k with
                             | Some k' => map_set acc k' t
                             | None => acc
                             end)).
  - apply forEach_relabel;
      [reflexivity | apply offsetOfLine_injective | exact Hwf].
  - intros acc t k Hk. unfold offsetOfLine.
    specialize (Hin k Hk). apply Nat.ltb_lt in Hin. now rewrite Hin.
Qed.

(** X6.  [syncToParentTimestampMap] loses no anchor that sits on a line of
    the text: the map it hands to the parent has as many entries, all
    under different offsets, and under the offset of each line the time
    that the line had. *)
Theorem syncToParent_keeps_anchors :
  forall (lines : list jsstring) (lt : jsmap),
    wf lt -> (forall k, In k (keys lt) -> k < length lines) ->
    wf (VariantA.syncToParentTimestampMap lines lt) /\
    map_size (VariantA.syncToParentTimestampMap lines lt) = map_size lt /\
    (forall i, i < length lines ->
       map_get (VariantA.syncToParentTimestampMap lines lt)
               (VariantA.lineToOffset lines i)
       = map_get lt i).
Proof.
  intros lines lt Hwf Hin. rewrite syncToParent_relabel by assumption.
  split; [apply wf_relabel; [apply offsetOfLine_injective | exact Hwf]|].
  split.
  - unfold map_size. apply relabel_length. intros k Hk. unfold offsetOfLine.
    specialize (Hin k Hk). apply Nat.ltb_lt in Hin. rewrite Hin. discriminate.
  - intros i Hi. apply map_get_relabel; [apply offsetOfLine_injective|].
    unfold offsetOfLine. apply Nat.ltb_lt in Hi. now rewrite Hi.
Qed.

Lemma syncToParent_keeps_anchors_witness :
  wf [(0, 0%Z); (1, 3000%Z)] /\
  map_get (VariantA.syncToParentTimestampMap [lit "ab"; lit "cd"]
             [(0, 0%Z); (1, 3000%Z)])
          (VariantA.lineToOffset [lit "ab"; lit "cd"] 1)
  = Some 3000%Z.
Proof.
  assert (Hwf : wf [(0, 0%Z); (1, 3000%Z)])
    by (unfold wf; simpl; repeat constructor; simpl; intuition lia).
  split; [exact Hwf|].
  refine (proj2 (proj2 (syncToParent_keeps_anchors [lit "ab"; lit "cd"]
                          [(0, 0%Z); (1, 3000%Z)] Hwf _)) 1 _).
  - simpl. intros k [<-|[<-|[]]]; lia.
  - simpl. lia.
Defined.

End AnchorsToParent.

(* ================================================================== *)
(** * Edits of one line in the line-indexed editor *)
(* ================================================================== *)

Section LineEdits.
Import JS Shared.

Lemma count_nl_no_nl (l : jsstring) : no_nl l -> count_nl l = 0.
Proof. intros H. unfold count_nl. now apply count_occ_not_In. Qed.

Lemma count_nl_line_break (l r : jsstring) :
  count_nl (l ++ NL :: r) = count_nl l + S (count_nl r).
Proof.
  unfold count_nl. now rewrite count_occ_app, count_occ_cons_eq.
Qed.

Lemma count_nl_join_exact (ls : list jsstring) :
  ls <> [] ->
  S (count_nl (join_nl ls)) = length ls + list_sum (map count_nl ls).
Proof.
  induction ls as [|l ls IH]; intros Hne; [congruence|].
  destruct ls as [|l' ls]; [simpl; lia|].
  rewrite join_nl_cons by discriminate.
  rewrite count_nl_line_break.
  specialize (IH ltac:(discriminate)).
  change (map count_nl (l :: l' :: ls))
    with (count_nl l :: map count_nl (l' :: ls)).
  change (list_sum (count_nl l :: map count_nl (l' :: ls)))
    with (count_nl l + list_sum (map count_nl (l' :: ls))).
  change (length (l :: l' :: ls)) with (S (length (l' :: ls))).
  lia.
Qed.

Lemma list_sum_no_nl (ls : list jsstring) :
  Forall no_nl ls -> list_sum (map count_nl ls) = 0.
Proof.
  induction 1 as [|l ls Hl _ IH]; [reflexivity|].
  simpl. rewrite IH, count_nl_no_nl by assumption. reflexivity.
Qed.

(** What an edit that keeps the line does, whichever branch it takes. *)
Lemma handleLineChange_keeps_line (st : VariantA.state) (now : Z)
    (index : nat) (value old : jsstring) :
  nth_error (split_nl (VariantA.notes st)) index = Some old ->
  value <> [] ->
  exists st',
    VariantA.handleLineChange st now index value = Ok st' /\
    VariantA.notes st'
    = join_nl (firstn index (split_nl (VariantA.notes st)) ++
               value :: skipn (S index) (split_nl (VariantA.notes st))) /\
    (forall j, j <> index ->
       map_get (VariantA.lineTimestamps st') j
       = map_get (VariantA.lineTimestamps st) j).
Proof.
  intros Hnth Hne.
  destruct (nth_error_decompose _ _ _ Hnth)
    as (pre & post & Hsplit & Hlen & Hpre & Hpost).
  unfold VariantA.handleLineChange. cbv zeta. rewrite Hnth, Hpre, Hpost.
  assert (Hv : VariantA.is_empty_string value = false)
    by (destruct value; [congruence | reflexivity]).
  rewrite Hv. cbn [andb].
  assert (Hset : array_set (split_nl (VariantA.notes st)) index value
                 = pre ++ value :: post).
  { rewrite Hsplit. subst index. apply array_set_at. }
  rewrite Hset.
  destruct (VariantA.firstCharacterTyped st (Some old) value) as [[|]|] eqn:Hf.
  - destruct (negb (map_has (VariantA.lineTimestamps st) index));
      eexists; (split; [reflexivity|]); simpl; (split; [reflexivity|]).
    + intros j Hj. now apply map_get_set_other.
    + reflexivity.
  - eexists. split; [reflexivity|]. simpl. split; reflexivity.
  - unfold VariantA.firstCharacterTyped in Hf.
    destruct (VariantA.isRecording st); discriminate.
Qed.

(** X7.  Typing in an existing line (a value with no newline that is not
    empty) changes that line of the text and no other. *)
Theorem handleLineChange_edits_one_line :
  forall (st : VariantA.state) (now : Z) (index : nat) (value old : jsstring),
    nth_error (split_nl (VariantA.notes st)) index = Some old ->
    value <> [] -> no_nl value ->
    exists st',
      VariantA.handleLineChange st now index value = Ok st' /\
      split_nl (VariantA.notes st')
      = firstn index (split_nl (VariantA.notes st)) ++
        value :: skipn (S index) (split_nl (VariantA.notes st)).
Proof.
  intros st now index value old Hnth Hne Hnl.
  destruct (handleLineChange_keeps_line st now index value old Hnth Hne)
    as (st' & Hrun & Hnotes & _).
  exists st'. split; [exact Hrun|]. rewrite Hnotes.
  destruct (nth_error_decompose _ _ _ Hnth)
    as (pre & post & Hsplit & _ & Hpre & Hpost).
  destruct (no_nl_pieces _ _ _ _ (split_nl_no_nl (VariantA.notes st)) Hsplit)
    as (Hp & _ & Hq).
  rewrite Hpre, Hpost. apply split_join; [now destruct pre|].
  apply Forall_app. split; [exact Hp|]. now constructor.
Qed.

Lemma handleLineChange_edits_one_line_witness :
  nth_error (split_nl (VariantA.notes sampleA)) 1 = Some (lit "c") /\
  lit "cx" <> [] /\ no_nl (lit "cx") /\
  exists st',
    VariantA.handleLineChange sampleA 0 1 (lit "cx") = Ok st' /\
    split_nl (VariantA.notes st') = [lit "ab"; lit "cx"; lit "d"].
Proof.
  assert (Hnl : no_nl (lit "cx")).
  { unfold no_nl, NL. simpl. intros [H|[H|[]]]; discriminate. }
  split; [reflexivity|]. split; [discriminate|]. split; [exact Hnl|].
  apply (handleLineChange_edits_one_line sampleA 0 1 (lit "cx") (lit "c")
           eq_refl ltac:(discriminate) Hnl).
Defined.

(** X9.  In every state that a session of the line-indexed editor
    reaches, the anchors are a well-formed map (no line has two) and each
    of them sits on a line that the text has. *)
Theorem anchors_refer_to_lines :
  forall es : list VariantA.event,
    wf (VariantA.lineTimestamps (VariantA.run VariantA.initial es)) /\
    (forall k,
       In k (keys (VariantA.lineTimestamps (VariantA.run VariantA.initial es))) ->
       k < VariantA.lineCount (VariantA.run VariantA.initial es)).
Proof.
  intros es. apply (run_on_lines es VariantA.initial).
  unfold anchorsOnLines. apply boundedBy_nil.
Qed.

Lemma stored_times_never_negative_witness :
  Forall fromTheEditor
    [VariantA.EvRecording true 1000; VariantA.EvLineChange 1500 0 (lit "a")] /\
  storesNoNegativeTime
    (VariantA.run VariantA.initial
       [VariantA.EvRecording true 1000; VariantA.EvLineChange 1500 0 (lit "a")]).
Proof.
  assert (H : Forall fromTheEditor
                [VariantA.EvRecording true 1000;
                 VariantA.EvLineChange 1500 0 (lit "a")])
    by (repeat constructor).
  split; [exact H | exact (stored_times_never_negative _ H)].
Defined.

End LineEdits.

(* ================================================================== *)
(** * What the exporter cuts *)
(* ================================================================== *)

Section ExporterCuts.
Import JS Shared WordExporter.

Lemma match_timestamp_needs_digit (s : jsstring) :
  (forall c, In c s -> is_digit c = false) -> match_timestamp s = None.
Proof.
  intros Hno. unfold match_timestamp, re_digit2.
  assert (Hd : re_digit (re_opt 91 s) = None).
  { destruct s as [|c s]; [reflexivity|]. simpl.
    destruct (c =? 91)%N.
    - destruct s as [|c' s]; [reflexivity|]. simpl.
      rewrite (Hno c') by (right; now left). reflexivity.
    - simpl. rewrite (Hno c) by (now left). reflexivity. }
  rewrite Hd. reflexivity.
Qed.

(** X12.  A text that holds no decimal digit comes out of
    [removeTimestamps] as it went in. *)
Theorem removeTimestamps_keeps_digit_free_text :
  forall s : jsstring,
    (forall c, In c s -> is_digit c = false) -> removeTimestamps s = s.
Proof.
  unfold removeTimestamps. induction s as [|c s IH]; intros Hno; [reflexivity|].
  change (replace_from 0 (c :: s)) with
    (match match_timestamp (c :: s) with
     | Some rest => replace_from (length s - length rest) s
     | None => c :: replace_from 0 s
     end).
  rewrite match_timestamp_needs_digit by assumption.
  rewrite IH; [reflexivity|]. intros c' Hc'. apply Hno. now right.
Qed.

Lemma removeTimestamps_keeps_digit_free_text_witness :
  (forall c, In c (lit "[no time] here") -> is_digit c = false) /\
  removeTimestamps (lit "[no time] here") = lit "[no time] here".
Proof.
  assert (H : forall c, In c (lit "[no time] here") -> is_digit c = false).
  { intros c Hc. simpl in Hc.
    repeat (destruct Hc as [<-|Hc]; [reflexivity|]). destruct Hc. }
  split; [exact H|]. exact (removeTimestamps_keeps_digit_free_text _ H).
Defined.

Lemma re_digit_length (s r : jsstring) :
  re_digit s = Some r -> length s = S (length r).
Proof.
  destruct s as [|c s]; simpl; [discriminate|].
  destruct (is_digit c); [|discriminate]. intros E. now injection E as ->.
Qed.

Lemma re_char_length (c : N) (s r : jsstring) :
  re_char c s = Some r -> length s = S (length r).
Proof.
  destruct s as [|x s]; simpl; [discriminate|].
  destruct (x =? c)%N; [|discriminate]. intros E. now injection E as ->.
Qed.

Lemma re_opt_length (c : N) (s : jsstring) : length (re_opt c s) <= length s.
Proof.
  destruct s as [|x s]; simpl; [lia|]. destruct (x =? c)%N; simpl; lia.
Qed.

Lemma drop_spaces_length (s : jsstring) : length (drop_spaces s) <= length s.
Proof.
  induction s as [|c s IH]; simpl; [lia|]. destruct (is_space c); simpl; lia.
Qed.

Lemma re_digit2_length (s r : jsstring) :
  re_digit2 s = Some r -> length s = S (S (length r)).
Proof.
  unfold re_digit2, andThen.
  destruct (re_digit s) as [x|] eqn:E1; [|discriminate]. intros E2.
  apply re_digit_length in E1, E2. lia.
Qed.

(** A match is never shorter than [dd:dd:dd]. *)
Lemma match_timestamp_length (s rest : jsstring) :
  match_timestamp s = Some rest -> length rest + 8 <= length s.
Proof.
  unfold match_timestamp, andThen.
  destruct (re_digit2 (re_opt 91 s)) as [x1|] eqn:E1; [|discriminate].
  destruct (re_char 58 x1) as [x2|] eqn:E2; [|discriminate].
  destruct (re_digit2 x2) as [x3|] eqn:E3; [|discriminate].
  destruct (re_char 58 x3) as [x4|] eqn:E4; [|discriminate].
  destruct (re_digit2 x4) as [x5|] eqn:E5; [|discriminate].
  intros E. injection E as <-.
  apply re_digit2_length in E1, E3, E5. apply re_char_length in E2, E4.
  pose proof (re_opt_length 91 s). pose proof (re_opt_length 93 x5).
  pose proof (drop_spaces_length (re_opt 93 x5)). lia.
Qed.

Lemma replace_from_length (s : jsstring) (skip : nat) :
  skip <= length s -> length (replace_from skip s) + skip <= length s.
Proof.
  revert skip. induction s as [|c s IH]; intros skip Hskip.
  - simpl in *. lia.
  - destruct skip as [|k].
    + change (replace_from 0 (c :: s)) with
        (match match_timestamp (c :: s) with
         | Some rest => replace_from (length s - length rest) s
         | None => c :: replace_from 0 s
         end).
      destruct (match_timestamp (c :: s)) as [rest|].
      * specialize (IH (length s - length rest) ltac:(lia)). simpl. lia.
      * specialize (IH 0 ltac:(lia)). simpl. lia.
    + simpl in Hskip. specialize (IH k ltac:(lia)). simpl. lia.
Qed.

(** X13.  [removeTimestamps] gives the text back as it is, or at least
    eight code units shorter: what it cuts is never less than a whole
    [dd:dd:dd], and it adds nothing. *)
Theorem removeTimestamps_same_or_shorter_by_8 :
  forall s : jsstring,
    removeTimestamps s = s \/ length (removeTimestamps s) + 8 <= length s.
Proof.
  unfold removeTimestamps. induction s as [|c s IH]; [now left|].
  change (replace_from 0 (c :: s)) with
    (match match_timestamp (c :: s) with
     | Some rest => replace_from (length s - length rest) s
     | None => c :: replace_from 0 s
     end).
  destruct (match_timestamp (c :: s)) as [rest|] eqn:E.
  - right. apply match_timestamp_length in E. simpl in E.
    pose proof (replace_from_length s (length s - length rest) ltac:(lia)).
    simpl. lia.
  - destruct IH as [IH|IH]; [left; now rewrite IH | right; simpl; lia].
Qed.

Lemma drop_spaces_stop (y r : jsstring) (c : N) :
  is_space c = false -> drop_spaces (y ++ c :: r) = drop_spaces y ++ c :: r.
Proof.
  intros Hc. induction y as [|x y IH]; simpl; [now rewrite Hc|].
  now destruct (is_space x).
Qed.

Lemma drop_spaces_head (s : jsstring) :
  match drop_spaces s with
  | [] => True
  | c :: _ => is_space c = false
  end.
Proof.
  induction s as [|c s IH]; simpl; [exact I|].
  destruct (is_space c) eqn:E; [exact IH | exact E].
Qed.

(** A trimmed line that is not empty begins and ends with something
    other than white space. *)
Lemma trim_ends (s : jsstring) :
  trim s = [] \/
  exists first rest,
    trim s = first :: rest /\ is_space first = false /\
    is_space (List.last (trim s) first) = false.
Proof.
  unfold trim.
  pose proof (drop_spaces_head s) as Hhead.
  destruct (drop_spaces s) as [|c x] eqn:Ex; [now left|].
  right. simpl rev. rewrite (drop_spaces_stop (rev x) [] c Hhead).
  rewrite rev_app_distr. simpl.
  exists c, (rev (drop_spaces (rev x))). split; [reflexivity|].
  split; [exact Hhead|].
  pose proof (drop_spaces_head (rev x)) as Hlast.
  destruct (drop_spaces (rev x)) as [|d y] eqn:Ey; [exact Hhead|].
  simpl rev. change (c :: rev y ++ [d]) with ((c :: rev y) ++ [d]).
  rewrite last_last. destruct (rev y ++ [d]); [exact Hhead | exact Hlast].
Qed.

Lemma trim_no_nl (s : jsstring) : no_nl s -> no_nl (trim s).
Proof.
  assert (Hdrop : forall x, no_nl x -> no_nl (drop_spaces x)).
  { induction x as [|c x IH]; simpl; intros Hx; [exact Hx|].
    destruct (is_space c); [|exact Hx].
    apply IH. intros Hin. apply Hx. now right. }
  assert (Hrev : forall x, no_nl x -> no_nl (rev x)).
  { intros x Hx Hin. apply Hx. now apply in_rev. }
  intros Hs. unfold trim. auto.
Qed.

Lemma plainTextParagraphs_fold (lines acc : list jsstring) (P : jsstring -> Prop) :
  Forall P acc ->
  (forall l, In l lines -> trim l <> [] -> P (trim l)) ->
  Forall P
    (fold_left
       (fun paragraphs line =>
          let trimmed := trim line in
          match trimmed with
          | [] => paragraphs
          | _ :: _ => paragraphs ++ [trimmed]
          end) lines acc).
Proof.
  revert acc. induction lines as [|l lines IH]; intros acc Hacc Hl; simpl;
    [exact Hacc|].
  apply IH; [|intros l' Hin; apply Hl; now right].
  cbv zeta. destruct (trim l) as [|c t] eqn:E; [exact Hacc|].
  apply Forall_app. split; [exact Hacc|]. constructor; [|constructor].
  rewrite <- E. apply Hl; [now left | rewrite E; discriminate].
Qed.

(** X14.  On the plain-text path of the exporter every paragraph is a
    line of the text with the white space at its two ends taken off: it
    is not empty, holds no newline, and neither begins nor ends with
    white space. *)
Theorem plainTextParagraphs_trimmed :
  forall (textContent p : jsstring),
    In p (plainTextParagraphs textContent) ->
    (exists line, In line (split_nl textContent) /\ p = trim line) /\
    no_nl p /\
    exists first rest,
      p = first :: rest /\ is_space first = false /\
      is_space (List.last p first) = false.
Proof.
  intros textContent p Hin.
  assert (Hall : Forall (fun p =>
                           (exists line,
                              In line (split_nl textContent) /\ p = trim line) /\
                           no_nl p /\
                           exists first rest,
                             p = first :: rest /\ is_space first = false /\
                             is_space (List.last p first) = false)
                        (plainTextParagraphs textContent)).
  { unfold plainTextParagraphs. apply plainTextParagraphs_fold; [constructor|].
    intros l Hl Hne. split; [exists l; auto|]. split.
    - apply trim_no_nl.
      pose proof (split_nl_no_nl textContent) as Hnl.
      rewrite Forall_forall in Hnl. now apply Hnl.
    - destruct (trim_ends l) as [E|H]; [congruence | exact H]. }
  rewrite Forall_forall in Hall. now apply Hall.
Qed.

Lemma plainTextParagraphs_trimmed_witness :
  In (lit "b c") (plainTextParagraphs (lit " a " ++ NL :: lit "  " ++ NL :: lit "b c ")) /\
  no_nl (lit "b c").
Proof.
  assert (Hin : In (lit "b c")
                   (plainTextParagraphs
                      (lit " a " ++ NL :: lit "  " ++ NL :: lit "b c ")))
    by (vm_compute; right; left; reflexivity).
  split; [exact Hin|].
  exact (proj1 (proj2 (plainTextParagraphs_trimmed _ _ Hin))).
Defined.

End ExporterCuts.

(* ================================================================== *)
(** * The offset-indexed editor, edit by edit *)
(* ================================================================== *)

Section OffsetEditor.
Import JS Shared.

Lemma lineStartPos_prefix (pre a b : list jsstring) (j : nat) :
  j <= length pre -> lineStartPos (pre ++ a) j = lineStartPos (pre ++ b) j.
Proof.
  intros Hj. unfold lineStartPos, slice0.
  rewrite !firstn_app.
  replace (j - length pre) with 0 by lia. reflexivity.
Qed.

Lemma lineStartPos_increasing (lines : list jsstring) (i j : nat) :
  i < j -> j <= length lines -> lineStartPos lines i < lineStartPos lines j.
Proof.
  intros Hij Hj.
  pose proof (lineToOffset_startOffset lines i ltac:(lia)) as Hi.
  pose proof (lineToOffset_startOffset lines j Hj) as Hj'.
  unfold VariantA.lineToOffset in Hi, Hj'. rewrite Hi, Hj'.
  now apply startOffset_increasing.
Qed.

Lemma map_get_delete_same (m : jsmap) (k : nat) :
  wf m -> map_get (map_delete m k) k = None.
Proof.
  unfold wf. induction m as [|[k' v'] m IH]; simpl; intros Hwf; [reflexivity|].
  inversion Hwf as [|? ? Hnotin Hrest]; subst.
  destruct (Nat.eqb_spec k' k) as [->|Hne].
  - now apply map_get_none.
  - simpl. destruct (Nat.eqb_spec k' k); [congruence|]. now apply IH.
Qed.

Lemma map_get_delete_other (m : jsmap) (k q : nat) :
  q <> k -> map_get (map_delete m k) q = map_get m q.
Proof.
  intros Hq. induction m as [|[k' v'] m IH]; simpl; [reflexivity|].
  destruct (Nat.eqb_spec k' k) as [->|Hne].
  - destruct (Nat.eqb_spec k q); [congruence | reflexivity].
  - simpl. now rewrite IH.
Qed.

Lemma nth_error_decompose_two (lines : list jsstring) (index : nat)
    (prevLine line : jsstring) :
  0 < index ->
  nth_error lines (index - 1) = Some prevLine ->
  nth_error lines index = Some line ->
  exists pre post,
    lines = pre ++ prevLine :: line :: post /\ index = S (length pre) /\
    firstn (index - 1) lines = pre /\ skipn (S index) lines = post.
Proof.
  intros Hpos Hprev Hnth.
  destruct (nth_error_decompose _ _ _ Hprev) as (pre & post' & Hsplit & Hlen & Hpre & _).
  destruct (nth_error_decompose _ _ _ Hnth) as (pre2 & post & Hsplit2 & Hlen2 & _ & Hpost).
  assert (Hidx : index = S (length pre)) by lia.
  exists pre, post. rewrite Hsplit in Hnth.
  rewrite Hidx, nth_error_app2 in Hnth by lia.
  replace (S (length pre) - length pre) with 1 in Hnth by lia.
  destruct post' as [|x post'']; [discriminate|]. simpl in Hnth.
  injection Hnth as ->.
  assert (Hpost' : post'' = post).
  { rewrite <- Hpost, Hsplit, Hidx.
    clear. induction pre as [|p pre IH]; simpl; [reflexivity | exact IH]. }
  subst post''. auto.
Qed.

(** X15.  An edit of an existing line in the offset-indexed editor (a
    value with no newline) leaves the timestamp column of every line
    before it as it was; if the line shows an anchor the map is not
    touched, and if it shows none, recording is on and the value is not
    blank, the line now shows the adjusted time of the edit. *)
Theorem offset_editor_edit_keeps_earlier_anchors :
  forall (st : VariantC.state) (now : Z) (index : nat) (value old : jsstring),
    nth_error (split_nl (VariantC.notes st)) index = Some old ->
    no_nl value ->
    let st' := VariantC.handleLineChange st now index value in
    (forall j, j < index ->
       VariantC.anchorOfLine st' j = VariantC.anchorOfLine st j) /\
    (VariantC.anchorOfLine st index <> None ->
     VariantC.timestampMap st' = VariantC.timestampMap st) /\
    (VariantC.isRecording st = true -> 0 < length (trim value) ->
     VariantC.anchorOfLine st index = None ->
     VariantC.anchorOfLine st' index
     = Some (adjustedDuration now (VariantC.recordingStartTime st))).
Proof.
  intros st now index value old Hnth Hnl st'.
  destruct (nth_error_decompose _ _ _ Hnth)
    as (pre & post & Hsplit & Hlen & _ & _).
  destruct (no_nl_pieces _ _ _ _ (split_nl_no_nl (VariantC.notes st)) Hsplit)
    as (Hp & _ & Hq).
  subst index.
  assert (Hset : array_set (split_nl (VariantC.notes st)) (length pre) value
                 = pre ++ value :: post)
    by (rewrite Hsplit; apply array_set_at).
  assert (Hlines' : split_nl (join_nl (pre ++ value :: post))
                    = pre ++ value :: post).
  { apply split_join; [now destruct pre|].
    apply Forall_app. split; [exact Hp | now constructor]. }
  assert (Hstart : forall j, j <= length pre ->
            lineStartPos (pre ++ value :: post) j
            = lineStartPos (split_nl (VariantC.notes st)) j).
  { intros j Hj. rewrite Hsplit. now apply lineStartPos_prefix. }
  assert (Hnotes : VariantC.notes st' = join_nl (pre ++ value :: post)).
  { subst st'. unfold VariantC.handleLineChange. cbv zeta. rewrite Hset.
    destruct (VariantC.isRecording st && (0 <? length (trim value)));
      [destruct (negb (map_has (VariantC.timestampMap st)
                         (lineStartPos (pre ++ value :: post) (length pre))))|];
      reflexivity. }
  assert (Hmap : VariantC.timestampMap st'
                 = if VariantC.isRecording st && (0 <? length (trim value))
                      && negb (map_has (VariantC.timestampMap st)
                                 (lineStartPos (split_nl (VariantC.notes st))
                                               (length pre)))
                   then map_set (VariantC.timestampMap st)
                          (lineStartPos (split_nl (VariantC.notes st)) (length pre))
                          (adjustedDuration now (VariantC.recordingStartTime st))
                   else VariantC.timestampMap st).
  { subst st'. unfold VariantC.handleLineChange. cbv zeta.
    rewrite Hset, (Hstart (length pre)) by lia.
    destruct (VariantC.isRecording st && (0 <? length (trim value)));
      [destruct (negb (map_has (VariantC.timestampMap st)
                         (lineStartPos (split_nl (VariantC.notes st))
                                       (length pre))))|];
      reflexivity. }
  unfold VariantC.anchorOfLine. rewrite Hnotes, Hlines', Hmap.
  split; [|split].
  - intros j Hj. rewrite Hstart by lia.
    destruct (VariantC.isRecording st && (0 <? length (trim value))
              && negb (map_has (VariantC.timestampMap st)
                         (lineStartPos (split_nl (VariantC.notes st))
                                       (length pre)))); [|reflexivity].
    apply map_get_set_other.
    assert (lineStartPos (split_nl (VariantC.notes st)) j
            < lineStartPos (split_nl (VariantC.notes st)) (length pre)).
    { apply lineStartPos_increasing; [exact Hj|].
      rewrite Hsplit, length_app. lia. }
    lia.
  - intros Hshown.
    assert (Hhas : map_has (VariantC.timestampMap st)
                     (lineStartPos (split_nl (VariantC.notes st)) (length pre))
                   = true).
    { unfold map_has.
      destruct (map_get (VariantC.timestampMap st)
                  (lineStartPos (split_nl (VariantC.notes st)) (length pre)));
        [reflexivity | congruence]. }
    rewrite Hhas, andb_false_r. reflexivity.
  - intros Hrec Hv Hnone. rewrite Hstart by lia.
    apply Nat.ltb_lt in Hv. unfold map_has. rewrite Hrec, Hv, Hnone.
    cbn [andb negb]. apply map_get_set_same.
Qed.

Lemma offset_editor_edit_keeps_earlier_anchors_witness :
  nth_error (split_nl (VariantC.notes
               (VariantC.mkState true (lit "a" ++ NL :: lit "b") [(0, 0%Z)] 0)))
            1 = Some (lit "b") /\
  no_nl (lit "bc") /\
  VariantC.anchorOfLine
    (VariantC.handleLineChange
       (VariantC.mkState true (lit "a" ++ NL :: lit "b") [(0, 0%Z)] 0)
       5000 1 (lit "bc")) 0
  = Some 0%Z.
Proof.
  assert (Hnl : no_nl (lit "bc")).
  { unfold no_nl, NL. simpl. intros [H|[H|[]]]; discriminate. }
  split; [reflexivity|]. split; [exact Hnl|].
  destruct (offset_editor_edit_keeps_earlier_anchors
              (VariantC.mkState true (lit "a" ++ NL :: lit "b") [(0, 0%Z)] 0)
              5000 1 (lit "bc") (lit "b") eq_refl Hnl) as (Hearlier & _ & _).
  rewrite (Hearlier 0) by lia. reflexivity.
Defined.

(** X16.  Backspace at the start of a line in the offset-indexed editor
    joins the line to the one before and takes out of the map the entry
    under the offset at which the line began; every other entry stays
    under the offset it had. *)
Theorem offset_editor_merge_deletes_one_entry :
  forall (st : VariantC.state) (index : nat) (prevLine line : jsstring),
    wf (VariantC.timestampMap st) ->
    0 < index ->
    nth_error (split_nl (VariantC.notes st)) (index - 1) = Some prevLine ->
    nth_error (split_nl (VariantC.notes st)) index = Some line ->
    exists st',
      VariantC.handleKeyDown st index Backspace 0 = Ok st' /\
      split_nl (VariantC.notes st')
      = firstn (index - 1) (split_nl (VariantC.notes st)) ++
        (prevLine ++ line) :: skipn (S index) (split_nl (VariantC.notes st)) /\
      map_get (VariantC.timestampMap st')
              (lineStartPos (split_nl (VariantC.notes st)) index) = None /\
      (forall q, q <> lineStartPos (split_nl (VariantC.notes st)) index ->
         map_get (VariantC.timestampMap st') q
         = map_get (VariantC.timestampMap st) q).
Proof.
  intros st index prevLine line Hwf Hpos Hprev Hnth.
  destruct (nth_error_decompose_two _ _ _ _ Hpos Hprev Hnth)
    as (pre & post & Hsplit & Hidx & Hpre & Hpost).
  destruct (no_nl_pieces _ _ _ _ (split_nl_no_nl (VariantC.notes st)) Hsplit)
    as (Hp & Hl & Hq).
  apply Forall_cons_iff in Hq. destruct Hq as [Hline Hq']. subst index.
  unfold VariantC.handleKeyDown. cbv zeta.
  rewrite Hnth, Hprev. cbn [Nat.eqb andb]. 
  replace (0 <? S (length pre)) with true by reflexivity. cbv iota.
  rewrite Hpre, Hpost.
  set (pos := lineStartPos (split_nl (VariantC.notes st)) (S (length pre))).
  assert (Hlines : splice_remove
                     (array_set (split_nl (VariantC.notes st))
                        (S (length pre) - 1) (concat_undef prevLine (Some line)))
                     (S (length pre))
                   = pre ++ (prevLine ++ line) :: post).
  { rewrite Hsplit. simpl Nat.sub. rewrite Nat.sub_0_r.
    simpl concat_undef. rewrite array_set_at. apply splice_remove_next. }
  rewrite Hlines.
  assert (Hjoin : split_nl (join_nl (pre ++ (prevLine ++ line) :: post))
                  = pre ++ (prevLine ++ line) :: post).
  { apply split_join; [now destruct pre|].
    apply Forall_app. split; [exact Hp|].
    constructor; [now apply no_nl_app | exact Hq']. }
  destruct (map_has (VariantC.timestampMap st) pos) eqn:Hhas;
    eexists; (split; [reflexivity|]); simpl; (split; [exact Hjoin|]).
  - split; [now apply map_get_delete_same|].
    intros q Hq0. now apply map_get_delete_other.
  - split; [|reflexivity].
    unfold map_has in Hhas.
    destruct (map_get (VariantC.timestampMap st) pos); [discriminate|reflexivity].
Qed.

Lemma offset_editor_merge_deletes_one_entry_witness :
  wf [(0, 0%Z); (2, 3000%Z); (4, 5000%Z)] /\
  exists st',
    VariantC.handleKeyDown
      (VariantC.mkState false (lit "a" ++ NL :: lit "b" ++ NL :: lit "c")
         [(0, 0%Z); (2, 3000%Z); (4, 5000%Z)] 0) 1 Backspace 0 = Ok st' /\
    map_get (VariantC.timestampMap st') 4 = Some 5000%Z.
Proof.
  assert (Hwf : wf [(0, 0%Z); (2, 3000%Z); (4, 5000%Z)])
    by (unfold wf; simpl; repeat constructor; simpl; intuition lia).
  split; [exact Hwf|].
  destruct (offset_editor_merge_deletes_one_entry
              (VariantC.mkState false (lit "a" ++ NL :: lit "b" ++ NL :: lit "c")
                 [(0, 0%Z); (2, 3000%Z); (4, 5000%Z)] 0)
              1 (lit "a") (lit "b") Hwf ltac:(lia) eq_refl eq_refl)
    as (st' & Hrun & _ & _ & Hother).
  exists st'. split; [exact Hrun|].
  rewrite Hother; [reflexivity|]. vm_compute. lia.
Defined.

End OffsetEditor.

Section EdgesOfTheText.
Import JS Shared.

(** X18.  Emptying the only line of the text does not delete it: the
    text is one empty line again, and the anchors, a stale one of that
    line among them, stay as they were. *)
Theorem handleLineChange_keeps_only_line :
  forall (st : VariantA.state) (now : Z),
    VariantA.lineCount st = 1 ->
    exists st',
      VariantA.handleLineChange st now 0 [] = Ok st' /\
      VariantA.notes st' = [] /\ VariantA.lineCount st' = 1 /\
      VariantA.lineTimestamps st' = VariantA.lineTimestamps st /\
      VariantA.timestampMap st' = VariantA.timestampMap st.
Proof.
  intros st now Hone. unfold VariantA.lineCount in Hone.
  unfold VariantA.handleLineChange, VariantA.firstCharacterTyped. cbv zeta.
  destruct (split_nl (VariantA.notes st)) as [|l [|l' ls]] eqn:Hsplit;
    simpl in Hone; try lia.
  simpl. rewrite andb_false_r.
  destruct (VariantA.isRecording st); simpl;
    eexists; (split; [reflexivity|]); simpl; auto.
Qed.

Lemma handleLineChange_keeps_only_line_witness :
  VariantA.lineCount (VariantA.mkState true (lit "a") [(0, 7%Z)] 0 [(0, 7%Z)]) = 1 /\
  exists st',
    VariantA.handleLineChange
      (VariantA.mkState true (lit "a") [(0, 7%Z)] 0 [(0, 7%Z)]) 9000 0 [] = Ok st' /\
    VariantA.lineTimestamps st' = [(0, 7%Z)].
Proof.
  split; [reflexivity|].
  destruct (handleLineChange_keeps_only_line
              (VariantA.mkState true (lit "a") [(0, 7%Z)] 0 [(0, 7%Z)]) 9000 eq_refl)
    as (st' & Hrun & _ & _ & Hlt & _).
  exists st'. split; [exact Hrun | exact Hlt].
Defined.

(** X19.  For an index past the last line [lineToOffset] gives one and
    the same offset, one past the end of the text. *)
Theorem lineToOffset_past_the_end :
  forall (notes : jsstring) (i : nat),
    length (split_nl notes) <= i ->
    VariantA.lineToOffset (split_nl notes) i = length notes + 1.
Proof.
  intros notes i Hi.
  unfold VariantA.lineToOffset, lineStartPos, slice0.
  rewrite firstn_all2 by exact Hi. rewrite join_split.
  pose proof (split_nl_length_pos notes).
  destruct i as [|i]; [lia | reflexivity].
Qed.

Lemma lineToOffset_past_the_end_witness :
  length (split_nl (lit "ab")) <= 5 /\
  VariantA.lineToOffset (split_nl (lit "ab")) 5 = 3.
Proof.
  split; [simpl; lia|].
  apply (lineToOffset_past_the_end (lit "ab") 5). simpl. lia.
Defined.

End EdgesOfTheText.

(* ================================================================== *)
(** * The mounted line-indexed editor, one turn after another *)
(* ================================================================== *)

Section RunningEditor.
Import JS Shared.

(** After [typedABC] the offset map of the parent has the anchors of [a]
    and of [c] (offset 4); the anchor of [b] went when the effect read
    offset 2 as line 0, and the line view shows the time of [c] on
    line 1. *)
Lemma abcTyped_state :
  abcTyped
  = VariantA.mkState true (lit "a" ++ NL :: lit "b" ++ NL :: lit "c")
      [(0, 3000%Z); (4, 6000%Z)] 0 [(0, 3000%Z); (1, 6000%Z)].
Proof. vm_compute. reflexivity. Qed.

Lemma abcTyped_on_lines : anchorsOnLines abcTyped.
Proof.
  rewrite abcTyped_state. split.
  - unfold wf. simpl. repeat constructor; simpl; intuition lia.
  - unfold VariantA.lineCount. simpl. intros k [<-|[<-|[]]]; lia.
Qed.

(** C2.  The first-character rule on two sessions.  Offset-indexed
    editor: [a] is typed before the recording starts, so the line has no
    anchor; the second character, typed while recording, gives the line,
    which was not blank, an anchor.  Line-indexed editor: with [a] on
    line 0 (anchor 3000) and a blank line 1, typing [b] on line 1 makes
    [handleLineChange] add the anchor 7000 for line 1, and once the
    effect of the same turn has run line 1 has no anchor and line 0,
    which was not blank, shows 7000 in place of its own time. *)
Theorem first_character_rule_broken :
  VariantC.run VariantC.initial (removelast lateRecording)
    = VariantC.mkState true (lit "a") [] 2000 /\
  VariantC.run VariantC.initial lateRecording
    = VariantC.mkState true (lit "ab") [(0, 3000%Z)] 2000 /\
  VariantA.session VariantA.initial (removelast typedAB)
    = VariantA.mkState true (lit "a" ++ [NL]) [(0, 3000%Z)] 0 [(0, 3000%Z)] /\
  VariantA.lineTimestamps
    (VariantA.step (VariantA.session VariantA.initial (removelast typedAB))
                   (VariantA.EvLineChange 9000 1 (lit "b")))
    = [(0, 3000%Z); (1, 7000%Z)] /\
  VariantA.session VariantA.initial typedAB
    = VariantA.mkState true (lit "a" ++ NL :: lit "b")
        [(0, 3000%Z); (2, 7000%Z)] 0 [(0, 7000%Z)].
Proof. vm_compute. repeat split. Qed.

(** The line view after Enter at the end of line 0 of [a], [b], [c]: the
    branch hands over [{0: 3000, 2: 6000}], and once the effect of the
    same turn has run the new empty line 1 shows 6000 and line 2 shows
    nothing. *)
Lemma enter_anchor_lands_on_new_line :
  VariantA.lineTimestamps abcTyped = [(0, 3000%Z); (1, 6000%Z)] /\
  VariantA.lineTimestamps (VariantA.step abcTyped (VariantA.EvKeyDown 0 Enter 1))
    = [(0, 3000%Z); (2, 6000%Z)] /\
  split_nl (VariantA.notes (VariantA.turn abcTyped (VariantA.EvKeyDown 0 Enter 1)))
    = [lit "a"; []; lit "b"; lit "c"] /\
  VariantA.lineTimestamps (VariantA.turn abcTyped (VariantA.EvKeyDown 0 Enter 1))
    = [(0, 3000%Z); (1, 6000%Z)].
Proof. vm_compute. repeat split. Qed.

(** C4.  Backspace at the start of line 2 of [a], [b], [c], with anchors
    3000 on line 0 and 6000 on line 1: the branch removes line 2 and
    hands over the two anchors as they were, and once the effect of the
    same turn has run the editor holds the single anchor 6000 on line 0.
    Both anchors were below the removed line; one has lost its time and
    the other its index. *)
Theorem backspace_moves_earlier_anchors :
  split_nl (VariantA.notes abcTyped) = [lit "a"; lit "b"; lit "c"] /\
  VariantA.lineTimestamps abcTyped = [(0, 3000%Z); (1, 6000%Z)] /\
  VariantA.lineTimestamps
    (VariantA.step abcTyped (VariantA.EvKeyDown 2 Backspace 0))
    = [(0, 3000%Z); (1, 6000%Z)] /\
  split_nl (VariantA.notes
              (VariantA.turn abcTyped (VariantA.EvKeyDown 2 Backspace 0)))
    = [lit "a"; lit "bc"] /\
  VariantA.lineTimestamps
    (VariantA.turn abcTyped (VariantA.EvKeyDown 2 Backspace 0))
    = [(0, 6000%Z)].
Proof. vm_compute. repeat split. Qed.

(** C5.  Enter at the end of line 0 of [a], [b], [c] and then Backspace
    at the start of the new line 1: the text is back as it was, and of
    the anchors 3000 on line 0 and 6000 on line 1 only the first is
    left.  The effect that runs between the two keys had put 6000 on the
    new line, and the merge removed it with that line. *)
Theorem split_then_merge_loses_anchor :
  VariantA.notes
    (VariantA.session abcTyped
       [VariantA.EvKeyDown 0 Enter 1; VariantA.EvKeyDown 1 Backspace 0])
    = VariantA.notes abcTyped /\
  VariantA.lineTimestamps abcTyped = [(0, 3000%Z); (1, 6000%Z)] /\
  VariantA.lineTimestamps
    (VariantA.turn abcTyped (VariantA.EvKeyDown 0 Enter 1))
    = [(0, 3000%Z); (1, 6000%Z)] /\
  VariantA.lineTimestamps
    (VariantA.session abcTyped
       [VariantA.EvKeyDown 0 Enter 1; VariantA.EvKeyDown 1 Backspace 0])
    = [(0, 3000%Z)].
Proof. vm_compute. repeat split. Qed.

End RunningEditor.

(* ================================================================== *)
(** * Edits of the lines that the editor shows *)
(* ================================================================== *)

Section EditsOfShownLines.
Import JS Shared.



Lemma offered_returns (st : VariantA.state) (e : VariantA.event) :
  offered st e -> returns st e.
Proof.
  destruct e as [now index value|index k cursorPos|b now|m|]; simpl; auto.
  - intros Hidx. apply handleLineChange_returns_iff. now left.
  - unfold VariantA.lineCount. intros Hidx.
    destruct (nth_error (split_nl (VariantA.notes st)) index) as [line|] eqn:Hnth;
      [|apply nth_error_None in Hnth; lia].
    unfold VariantA.handleKeyDown. cbv zeta. rewrite Hnth.
    destruct k; [reflexivity| |reflexivity].
    destruct ((cursorPos =? 0) && (0 <? index)); [|reflexivity].
    destruct (nth_error (split_nl (VariantA.notes st)) (index - 1)) eqn:Hprev;
      [reflexivity|].
    apply nth_error_None in Hprev. lia.
Qed.

(** X22.  A session of the line-indexed editor in which every change and
    every key comes from a textarea that the editor shows at that moment
    never makes a handler throw: [handleLineChange] and [handleKeyDown]
    return at every event, from whatever state the session starts. *)
Theorem offered_events_never_throw :
  forall (es : list VariantA.event) (st : VariantA.state),
    alongSession offered st es -> alongSession returns st es.
Proof.
  induction es as [|e es IH]; intros st; simpl; [auto|].
  intros [He Hes]. split; [now apply offered_returns | now apply IH].
Qed.

Lemma offered_events_never_throw_witness :
  alongSession offered VariantA.initial typedABC /\
  alongSession returns VariantA.initial typedABC.
Proof.
  assert (H : alongSession offered VariantA.initial typedABC)
    by (vm_compute; repeat split; lia).
  split; [exact H | exact (offered_events_never_throw typedABC VariantA.initial H)].
Defined.

End EditsOfShownLines.

(* ================================================================== *)
(** * A value of several lines *)
(* ================================================================== *)

Section PastedLines.
Import JS Shared.

Lemma join_nl_flat_tail (ls post : list jsstring) :
  ls <> [] -> join_nl (ls ++ post) = join_nl (join_nl ls :: post).
Proof.
  intros Hne. destruct post as [|p post].
  - rewrite app_nil_r. reflexivity.
  - rewrite join_nl_app by (assumption || discriminate).
    rewrite (join_nl_cons (join_nl ls) (p :: post)) by discriminate.
    reflexivity.
Qed.

Lemma join_nl_flat (pre ls post : list jsstring) :
  ls <> [] -> join_nl (pre ++ ls ++ post) = join_nl (pre ++ join_nl ls :: post).
Proof.
  intros Hne. destruct pre as [|x pre].
  - simpl app. now apply join_nl_flat_tail.
  - rewrite (join_nl_app (x :: pre) (ls ++ post));
      [|discriminate | intros E; apply app_eq_nil in E; destruct E; congruence].
    rewrite (join_nl_app (x :: pre) (join_nl ls :: post)) by discriminate.
    now rewrite join_nl_flat_tail.
Qed.

(** X8.  A value that is not empty, put into an existing line, takes the
    place of that line in the text; where it holds newlines (a paste) its
    pieces become lines of their own, the lines before and after are as
    they were, and the text has one line more for each newline of the
    value. *)
Theorem handleLineChange_paste_becomes_lines :
  forall (st : VariantA.state) (now : Z) (index : nat) (value old : jsstring),
    nth_error (split_nl (VariantA.notes st)) index = Some old ->
    value <> [] ->
    exists st',
      VariantA.handleLineChange st now index value = Ok st' /\
      split_nl (VariantA.notes st')
      = firstn index (split_nl (VariantA.notes st)) ++
        split_nl value ++ skipn (S index) (split_nl (VariantA.notes st)) /\
      VariantA.lineCount st' = VariantA.lineCount st + count_nl value.
Proof.
  intros st now index value old Hnth Hne.
  destruct (handleLineChange_keeps_line st now index value old Hnth Hne)
    as (st' & Hrun & Hnotes & _).
  exists st'. split; [exact Hrun|].
  destruct (nth_error_decompose _ _ _ Hnth)
    as (pre & post & Hsplit & Hlen & Hpre & Hpost).
  destruct (no_nl_pieces _ _ _ _ (split_nl_no_nl (VariantA.notes st)) Hsplit)
    as (Hp & _ & Hq).
  assert (Hlines : split_nl (VariantA.notes st') = pre ++ split_nl value ++ post).
  { rewrite Hnotes, Hpre, Hpost.
    rewrite <- (join_split value) at 1.
    rewrite <- join_nl_flat by apply split_nl_nonempty.
    apply split_join.
    - pose proof (split_nl_nonempty value). destruct pre; [|discriminate].
      destruct (split_nl value); [congruence | discriminate].
    - apply Forall_app. split; [exact Hp|].
      apply Forall_app. split; [apply split_nl_no_nl | exact Hq]. }
  split; [rewrite Hpre, Hpost; exact Hlines|].
  unfold VariantA.lineCount. rewrite Hlines, Hsplit.
  rewrite !length_app, split_nl_length. simpl. lia.
Qed.

Lemma handleLineChange_paste_becomes_lines_witness :
  nth_error (split_nl (VariantA.notes sampleA)) 1 = Some (lit "c") /\
  lit "x" ++ NL :: lit "y" <> [] /\
  exists st',
    VariantA.handleLineChange sampleA 0 1 (lit "x" ++ NL :: lit "y") = Ok st' /\
    split_nl (VariantA.notes st') = [lit "ab"; lit "x"; lit "y"; lit "d"] /\
    VariantA.lineCount st' = 4.
Proof.
  split; [reflexivity|]. split; [discriminate|].
  apply (handleLineChange_paste_becomes_lines sampleA 0 1
           (lit "x" ++ NL :: lit "y") (lit "c") eq_refl ltac:(discriminate)).
Defined.

End PastedLines.

(* ================================================================== *)
(** * What the handlers hand to the parent *)
(* ================================================================== *)

Section HandedToTheParent.
Import JS Shared.

Lemma syncToParent_holds (lines : list jsstring) (lt : jsmap) :
  boundedBy (length lines) lt ->
  holdsAnchorsOf lines lt (VariantA.syncToParentTimestampMap lines lt).
Proof.
  intros [Hwf Hlt]. unfold holdsAnchorsOf.
  rewrite syncToParent_relabel by assumption.
  split; [apply wf_relabel; [apply offsetOfLine_injective | exact Hwf]|].
  split.
  - unfold map_size. apply relabel_length. intros k Hk. unfold offsetOfLine.
    specialize (Hlt k Hk). apply Nat.ltb_lt in Hlt. rewrite Hlt. discriminate.
  - intros j Hj. apply map_get_relabel; [apply offsetOfLine_injective|].
    unfold offsetOfLine. apply Nat.ltb_lt in Hj. now rewrite Hj.
Qed.

(** C3.  Enter in the line-indexed editor, on an existing line and in a
    state whose anchors sit on lines of the text.  The line is split at
    the cursor, the tail becoming the new line [k = index + 1].  In the
    map that the branch builds and passes to [setLineTimestamps] every
    anchor with a line index below [k] has its index and time as before,
    every anchor with a line index of [k] or more has its index raised by
    one, and line [k] has none; and the offset map that the branch hands
    to the parent holds those anchors, each under the start offset of its
    line in the new text.  What the effect then makes of that offset map
    is not stated here. *)
Theorem enter_hands_parent_shifted_anchors :
  forall (st : VariantA.state) (index cursorPos : nat) (line : jsstring),
    anchorsOnLines st ->
    nth_error (split_nl (VariantA.notes st)) index = Some line ->
    exists st',
      VariantA.handleKeyDown st index Enter cursorPos = Ok st' /\
      split_nl (VariantA.notes st') =
        firstn index (split_nl (VariantA.notes st)) ++
        substring_to line cursorPos :: substring_from line cursorPos ::
        skipn (S index) (split_nl (VariantA.notes st)) /\
      (forall j, j < index + 1 ->
         map_get (VariantA.lineTimestamps st') j
         = map_get (VariantA.lineTimestamps st) j) /\
      (forall j, index + 1 <= j ->
         map_get (VariantA.lineTimestamps st') (j + 1)
         = map_get (VariantA.lineTimestamps st) j) /\
      map_get (VariantA.lineTimestamps st') (index + 1) = None /\
      holdsAnchorsOf (split_nl (VariantA.notes st'))
                     (VariantA.lineTimestamps st') (VariantA.timestampMap st').
Proof.
  intros st index cursorPos line Hon Hnth.
  pose proof Hon as [Hwf Hlt].
  destruct (nth_error_decompose _ _ _ Hnth)
    as (pre & post & Hsplit & Hlen & Hpre & Hpost).
  rewrite Hpre, Hpost. subst index.
  eexists. split; [apply (handleKeyDown_Enter_at st pre post line cursorPos Hsplit)|].
  simpl VariantA.notes. simpl VariantA.lineTimestamps. simpl VariantA.timestampMap.
  destruct (no_nl_pieces _ _ _ _ (split_nl_no_nl (VariantA.notes st)) Hsplit)
    as (Hp & Hl & Hq).
  assert (Hlines : split_nl (join_nl (pre ++ substring_to line cursorPos
                                        :: substring_from line cursorPos :: post))
                   = pre ++ substring_to line cursorPos
                         :: substring_from line cursorPos :: post).
  { apply split_join; [now destruct pre|].
    apply Forall_app. split; [exact Hp|].
    repeat constructor; [now apply no_nl_firstn | now apply no_nl_skipn | exact Hq]. }
  rewrite Hlines. split; [reflexivity|].
  destruct (shiftAfterSplit_get (VariantA.lineTimestamps st) (length pre) Hwf)
    as (Hlo & Hhi & Hnew).
  split; [exact Hlo|]. split; [exact Hhi|]. split; [exact Hnew|].
  apply syncToParent_holds.
  replace (length (pre ++ substring_to line cursorPos
                       :: substring_from line cursorPos :: post))
    with (S (VariantA.lineCount st)).
  - now apply shiftAfterSplit_bounded.
  - unfold VariantA.lineCount. rewrite Hsplit, !length_app. simpl. lia.
Qed.

(** Enter at the end of line 0 of [a], [b], [c]: the parent has 6000 under
    the start of line 2 and nothing under the start of the new line 1. *)
Lemma enter_hands_parent_shifted_anchors_witness :
  anchorsOnLines abcTyped /\
  nth_error (split_nl (VariantA.notes abcTyped)) 0 = Some (lit "a") /\
  exists st',
    VariantA.handleKeyDown abcTyped 0 Enter 1 = Ok st' /\
    split_nl (VariantA.notes st') = [lit "a"; []; lit "b"; lit "c"] /\
    map_get (VariantA.timestampMap st')
            (VariantA.lineToOffset (split_nl (VariantA.notes st')) 2)
    = Some 6000%Z /\
    map_get (VariantA.timestampMap st')
            (VariantA.lineToOffset (split_nl (VariantA.notes st')) 1)
    = None.
Proof.
  split; [exact abcTyped_on_lines|]. split; [reflexivity|].
  destruct (enter_hands_parent_shifted_anchors abcTyped 0 1 (lit "a")
              abcTyped_on_lines eq_refl)
    as (st' & Hrun & Htext & Hlo & Hhi & Hnew & (_ & _ & Hparent)).
  exists st'. split; [exact Hrun|]. split; [exact Htext|].
  assert (Hlen : length (split_nl (VariantA.notes st')) = 4)
    by (rewrite Htext; reflexivity).
  split.
  - rewrite Hparent by lia.
    etransitivity; [exact (Hhi 1 ltac:(simpl; lia)) | reflexivity].
  - rewrite Hparent by lia. exact Hnew.
Defined.

Lemma shiftAfterRemove_on_lines (st : VariantA.state) (index : nat)
    (lines' : list jsstring) :
  anchorsOnLines st -> index < VariantA.lineCount st ->
  S (length lines') = VariantA.lineCount st ->
  boundedBy (length lines')
            (VariantA.shiftAfterRemove (VariantA.lineTimestamps st) index).
Proof.
  intros Hon Hidx Hlen.
  pose proof (shiftAfterRemove_bounded (VariantA.lineTimestamps st) index
                (VariantA.lineCount st) Hon) as Hb.
  apply Nat.ltb_lt in Hidx. rewrite Hidx in Hb.
  replace (length lines') with (VariantA.lineCount st - 1) by lia. exact Hb.
Qed.

(** X20.  The two removing branches of the line-indexed editor, in a state
    whose anchors sit on lines of the text: emptying line [index] while
    other lines exist, and Backspace at its start.  In the map that the
    branch builds and passes to [setLineTimestamps] the anchor of the
    removed line has gone, every anchor with a greater line index has its
    index lowered by one, and every anchor with a smaller one has its
    index and time as before; the offset map handed to the parent holds
    those anchors, each under the start offset of its line in the new
    text.  What the effect then makes of that offset map is not stated
    here. *)
Theorem removal_hands_parent_renumbered_anchors :
  forall (st : VariantA.state) (index : nat) (line : jsstring),
    anchorsOnLines st ->
    nth_error (split_nl (VariantA.notes st)) index = Some line ->
    (forall now, 1 < VariantA.lineCount st ->
       exists st',
         VariantA.handleLineChange st now index [] = Ok st' /\
         split_nl (VariantA.notes st')
         = splice_remove (split_nl (VariantA.notes st)) index /\
         renumberedAfterRemove index (VariantA.lineTimestamps st)
                               (VariantA.lineTimestamps st') /\
         holdsAnchorsOf (split_nl (VariantA.notes st'))
                        (VariantA.lineTimestamps st') (VariantA.timestampMap st')) /\
    (forall prevLine, 0 < index ->
       nth_error (split_nl (VariantA.notes st)) (index - 1) = Some prevLine ->
       exists st',
         VariantA.handleKeyDown st index Backspace 0 = Ok st' /\
         split_nl (VariantA.notes st')
         = firstn (index - 1) (split_nl (VariantA.notes st)) ++
           (prevLine ++ line) :: skipn (S index) (split_nl (VariantA.notes st)) /\
         renumberedAfterRemove index (VariantA.lineTimestamps st)
                               (VariantA.lineTimestamps st') /\
         holdsAnchorsOf (split_nl (VariantA.notes st'))
                        (VariantA.lineTimestamps st') (VariantA.timestampMap st')).
Proof.
  intros st index line Hon Hnth.
  pose proof Hon as [Hwf _].
  assert (Hidx : index < VariantA.lineCount st)
    by (apply nth_error_Some; unfold VariantA.lineCount; congruence).
  destruct (nth_error_decompose _ _ _ Hnth)
    as (pre & post & Hsplit & Hlen & Hpre & Hpost).
  destruct (no_nl_pieces _ _ _ _ (split_nl_no_nl (VariantA.notes st)) Hsplit)
    as (Hp & Hl & Hq).
  split.
  - intros now Hmany. pose proof Hmany as Hmany'.
    unfold VariantA.lineCount in Hmany'. rewrite Hsplit in Hmany' |- *.
    assert (Hlines : split_nl (join_nl (pre ++ post)) = pre ++ post).
    { apply split_join; [|apply Forall_app; auto].
      rewrite length_app in Hmany'. simpl in Hmany'.
      destruct pre; [destruct post; [simpl in Hmany'; lia | discriminate]
                    | discriminate]. }
    rewrite <- Hlen.
    eexists. split; [apply (handleLineChange_delete_at st now pre post line Hsplit Hmany')|].
    simpl VariantA.notes. simpl VariantA.lineTimestamps. simpl VariantA.timestampMap.
    rewrite splice_remove_at, Hlines. split; [reflexivity|].
    split; [now apply shiftAfterRemove_renumbered|].
    apply syncToParent_holds. rewrite Hlen.
    apply shiftAfterRemove_on_lines; [exact Hon | exact Hidx|].
    unfold VariantA.lineCount. rewrite Hsplit, !length_app. simpl. lia.
  - intros prevLine Hpos Hprev. rewrite Hpost.
    destruct (nth_error_decompose _ _ _ Hprev)
      as (pre' & post' & Hsplit' & Hlen' & Hpre' & _).
    rewrite Hpre'.
    assert (Hpost' : post' = line :: post).
    { assert (Hi : index = S (length pre')) by lia.
      rewrite Hsplit' in Hnth. rewrite Hi, nth_error_app2 in Hnth by lia.
      replace (S (length pre') - length pre') with 1 in Hnth by lia.
      destruct post' as [|x post'']; [discriminate|]. simpl in Hnth.
      injection Hnth as ->. f_equal.
      rewrite Hsplit' in Hpost. rewrite Hi in Hpost.
      replace (pre' ++ prevLine :: line :: post'')
        with ((pre' ++ [prevLine; line]) ++ post'') in Hpost
        by (rewrite <- app_assoc; reflexivity).
      replace (S (S (length pre'))) with (length (pre' ++ [prevLine; line]))
        in Hpost by (rewrite length_app; simpl; lia).
      rewrite skipn_app, skipn_all, Nat.sub_diag in Hpost. exact Hpost. }
    subst post'.
    assert (Hi : index = S (length pre')) by lia.
    destruct (no_nl_pieces _ _ _ _ (split_nl_no_nl (VariantA.notes st)) Hsplit')
      as (Hp' & Hl' & Hq').
    assert (Hlines : split_nl (join_nl (pre' ++ (prevLine ++ line) :: post))
                     = pre' ++ (prevLine ++ line) :: post).
    { apply split_join; [now destruct pre'|].
      apply Forall_app. split; [exact Hp'|].
      constructor; [now apply no_nl_app | exact Hq]. }
    rewrite Hi.
    eexists. split; [apply (handleKeyDown_Backspace_at st pre' post prevLine line Hsplit')|].
    simpl VariantA.notes. simpl VariantA.lineTimestamps. simpl VariantA.timestampMap.
    rewrite Hlines. split; [reflexivity|].
    split; [now apply shiftAfterRemove_renumbered|].
    apply syncToParent_holds. rewrite <- Hi.
    apply shiftAfterRemove_on_lines; [exact Hon | exact Hidx|].
    unfold VariantA.lineCount. rewrite Hsplit', !length_app. simpl. lia.
Qed.

Lemma removal_hands_parent_renumbered_anchors_witness :
  anchorsOnLines abcTyped /\
  nth_error (split_nl (VariantA.notes abcTyped)) 1 = Some (lit "b") /\
  (exists st',
     VariantA.handleLineChange abcTyped 9000 1 [] = Ok st' /\
     split_nl (VariantA.notes st') = [lit "a"; lit "c"] /\
     renumberedAfterRemove 1 (VariantA.lineTimestamps abcTyped)
                           (VariantA.lineTimestamps st') /\
     holdsAnchorsOf (split_nl (VariantA.notes st'))
                    (VariantA.lineTimestamps st') (VariantA.timestampMap st')) /\
  (exists st',
     VariantA.handleKeyDown abcTyped 1 Backspace 0 = Ok st' /\
     split_nl (VariantA.notes st') = [lit "ab"; lit "c"] /\
     renumberedAfterRemove 1 (VariantA.lineTimestamps abcTyped)
                           (VariantA.lineTimestamps st') /\
     holdsAnchorsOf (split_nl (VariantA.notes st'))
                    (VariantA.lineTimestamps st') (VariantA.timestampMap st')).
Proof.
  split; [exact abcTyped_on_lines|]. split; [reflexivity|].
  destruct (removal_hands_parent_renumbered_anchors abcTyped 1 (lit "b")
              abcTyped_on_lines eq_refl) as [Hdel Hmerge].
  split.
  - apply (Hdel 9000%Z). vm_compute. lia.
  - apply (Hmerge (lit "a")); [lia | reflexivity].
Defined.

(** X21.  Typing in an existing line of the line-indexed editor (a value
    with no newline), in a state whose anchors sit on lines of the text.
    The map that [handleLineChange] works out has one entry more than
    [lineTimestamps] exactly when the line was blank before, is not blank
    after, recording is on and the line has no entry.  The new entry is
    then the last one, under the index of the edited line and with the
    adjusted time, and the offset map handed to the parent holds the
    anchors of that map, each under the start offset of its line in the
    new text.  Where no entry is added and the value is not empty, both
    maps stay as they were.  What the effect then makes of the offset map
    is not stated here. *)
Theorem creation_hands_parent_new_anchor :
  forall (st : VariantA.state) (now : Z) (index : nat) (value old : jsstring),
    anchorsOnLines st ->
    nth_error (split_nl (VariantA.notes st)) index = Some old ->
    no_nl value ->
    exists st',
      VariantA.handleLineChange st now index value = Ok st' /\
      (anchorCreated (VariantA.lineTimestamps st) (VariantA.lineTimestamps st')
       <-> length (trim old) = 0 /\ 0 < length (trim value) /\
           VariantA.isRecording st = true /\
           map_has (VariantA.lineTimestamps st) index = false) /\
      (anchorCreated (VariantA.lineTimestamps st) (VariantA.lineTimestamps st')
       -> VariantA.lineTimestamps st'
          = VariantA.lineTimestamps st ++
            [(index, adjustedDuration now (VariantA.recordingStartTime st))] /\
          holdsAnchorsOf (split_nl (VariantA.notes st'))
            (VariantA.lineTimestamps st') (VariantA.timestampMap st')) /\
      (~ anchorCreated (VariantA.lineTimestamps st) (VariantA.lineTimestamps st')
       -> value <> []
       -> VariantA.lineTimestamps st' = VariantA.lineTimestamps st /\
          VariantA.timestampMap st' = VariantA.timestampMap st).
Proof.
  intros st now index value old Hon Hnth Hnl.
  destruct (nth_error_decompose _ _ _ Hnth)
    as (pre & post & Hsplit & Hlen & Hpre & Hpost).
  destruct (no_nl_pieces _ _ _ _ (split_nl_no_nl (VariantA.notes st)) Hsplit)
    as (Hp & _ & Hq).
  assert (Hset : array_set (split_nl (VariantA.notes st)) index value
                 = pre ++ value :: post).
  { rewrite Hsplit. subst index. apply array_set_at. }
  assert (Hlines : split_nl (join_nl (pre ++ value :: post)) = pre ++ value :: post).
  { apply split_join; [now destruct pre|].
    apply Forall_app. split; [exact Hp | now constructor]. }
  unfold VariantA.handleLineChange. cbv zeta. rewrite Hnth, Hset.
  unfold anchorCreated.
  destruct (VariantA.is_empty_string value
            && (1 <? length (split_nl (VariantA.notes st)))) eqn:Hdel.
  - eexists. split; [reflexivity|]. simpl VariantA.lineTimestamps.
    pose proof (shiftAfterRemove_size_le (VariantA.lineTimestamps st) index).
    apply andb_true_iff in Hdel. destruct Hdel as [Hempty _].
    destruct value; [|discriminate]. simpl.
    split; [split; [lia | intros (_ & Hv & _); lia]|].
    split; [lia | congruence].
  - unfold VariantA.firstCharacterTyped.
    destruct (VariantA.isRecording st) eqn:Hrec.
    + destruct ((length (trim old) =? 0) && (0 <? length (trim value))) eqn:Hc.
      * apply andb_true_iff in Hc. destruct Hc as [Ho Hv].
        apply Nat.eqb_eq in Ho. apply Nat.ltb_lt in Hv.
        destruct (map_has (VariantA.lineTimestamps st) index) eqn:Hhas; simpl negb;
          cbv iota; eexists; (split; [reflexivity|]);
          simpl VariantA.lineTimestamps; simpl VariantA.timestampMap;
          simpl VariantA.notes.
        -- split; [split; [lia | intros (_ & _ & _ & E); discriminate]|].
           split; [lia | auto].
        -- apply map_has_false in Hhas.
           rewrite map_size_set_fresh by assumption.
           split; [split; [intros _; auto | reflexivity]|].
           split; [|intros Hno; exfalso; apply Hno; reflexivity].
           intros _. split; [now apply map_set_fresh|].
           rewrite Hlines. apply syncToParent_holds.
           apply boundedBy_set.
           ++ eapply boundedBy_weaken; [exact Hon|].
              unfold VariantA.lineCount. rewrite Hsplit, !length_app. simpl. lia.
           ++ rewrite length_app. simpl. lia.
      * eexists. split; [reflexivity|]. simpl VariantA.lineTimestamps.
        simpl VariantA.timestampMap.
        split; [split; [lia|]|split; [lia | auto]].
        intros (Ho & Hv & _). apply andb_false_iff in Hc.
        destruct Hc as [Hc|Hc];
          [apply Nat.eqb_neq in Hc | apply Nat.ltb_ge in Hc]; lia.
    + eexists. split; [reflexivity|]. simpl VariantA.lineTimestamps.
      simpl VariantA.timestampMap.
      split; [split; [lia | intros (_ & _ & E & _); discriminate]|].
      split; [lia | auto].
Qed.

(** [b] typed on the blank line 1 under [a], nine seconds in: the parent
    has 7000 under the start of line 1. *)
Lemma creation_hands_parent_new_anchor_witness :
  anchorsOnLines (VariantA.session VariantA.initial (removelast typedAB)) /\
  nth_error (split_nl (VariantA.notes
               (VariantA.session VariantA.initial (removelast typedAB)))) 1
    = Some [] /\
  no_nl (lit "b") /\
  exists st',
    VariantA.handleLineChange
      (VariantA.session VariantA.initial (removelast typedAB)) 9000 1 (lit "b")
      = Ok st' /\
    VariantA.lineTimestamps st' = [(0, 3000%Z); (1, 7000%Z)] /\
    map_get (VariantA.timestampMap st')
            (VariantA.lineToOffset (split_nl (VariantA.notes st')) 1)
    = Some 7000%Z.
Proof.
  assert (Hon : anchorsOnLines
                  (VariantA.session VariantA.initial (removelast typedAB))).
  { split.
    - vm_compute. repeat constructor; simpl; intuition lia.
    - vm_compute. intros k [<-|[]]. lia. }
  assert (Hnl : no_nl (lit "b")).
  { unfold no_nl, NL. simpl. intros [H|[]]; discriminate. }
  split; [exact Hon|]. split; [reflexivity|]. split; [exact Hnl|].
  destruct (creation_hands_parent_new_anchor _ 9000 1 (lit "b") [] Hon eq_refl Hnl)
    as (st' & Hrun & Hiff & Hmade & _).
  assert (Hc : anchorCreated
                 (VariantA.lineTimestamps
                    (VariantA.session VariantA.initial (removelast typedAB)))
                 (VariantA.lineTimestamps st')).
  { apply Hiff. repeat split. simpl. lia. }
  destruct (Hmade Hc) as (Hlt & _ & _ & Hparent).
  exists st'. split; [exact Hrun|]. split; [rewrite Hlt; reflexivity|].
  assert (E : VariantA.handleLineChange
                (VariantA.session VariantA.initial (removelast typedAB))
                9000 1 (lit "b")
              = Ok (VariantA.mkState true (lit "a" ++ NL :: lit "b")
                      [(0, 3000%Z); (2, 7000%Z)] 0 [(0, 3000%Z); (1, 7000%Z)]))
    by (vm_compute; reflexivity).
  rewrite Hparent.
  - rewrite Hlt. reflexivity.
  - rewrite E in Hrun. injection Hrun as <-. simpl. lia.
Defined.

End HandedToTheParent.
